(** * euscan: upstream scan core ([pym/euscan/scan.py])

    A shallow embedding of [filter_versions], [scan_upstream_urls] and
    [scan_upstream], and the properties of the version filter, the URL
    dispatcher and the scan orchestrator that follow from the code.

    The module is Python 2 code: it imports [print_function] from
    [__future__] but not [division], and reads [e.message] of a caught
    exception.  Numbers handed to the progress callback are therefore Python
    integers ([Z] here) and [70 / num_urls] is floor division, which raises
    [ZeroDivisionError] for a zero divisor. *)

From stdpp Require Import gmap strings list fin_maps.
From Stdlib Require Import ZArith Lia Ascii String.

Local Open Scope string_scope.
Local Open Scope list_scope.
Local Open Scope stdpp_scope.

(** ** Data *)

(** A raw finding, the tuple [(url, version, handler, confidence)] that the
    handlers produce. *)
Record Finding := mkFinding {
  f_url : string;
  f_version : string;
  f_handler : string;
  f_confidence : Z
}.

(** The value stored per version in [filtered]: the dict literal with the
    keys ["url"], ["handler"] and ["confidence"]. *)
Record Entry := mkEntry {
  e_url : string;
  e_handler : string;
  e_confidence : Z
}.

(** One element of the result, the tuple
    [(cp, url, version, handler, confidence)]. *)
Definition ScanResult : Type := string * string * string * string * Z.

Definition r_version (r : ScanResult) : string :=
  let '(_, _, version, _, _) := r in version.

(** [len(d)] of a dict is its number of keys; every value stored in
    [filtered] is built by the same three-key literal. *)
Definition len_entry (e : Entry) : nat := 3.

Definition entry_of (f : Finding) : Entry :=
  {| e_url := f_url f; e_handler := f_handler f;
     e_confidence := f_confidence f |}.

Definition result_of (cp : string) (f : Finding) : ScanResult :=
  (cp, f_url f, f_version f, f_handler f, f_confidence f).

(** ** Version filter *)

Section VersionFilter.

(** [helpers.version_blacklisted], a predicate on [(cp, version)]. *)
Variable version_blacklisted : string → string → bool.

(** [version in filtered and len(url) < len(filtered[version])]: the right
    operand is evaluated only when the key is present. *)
Definition shorter_than_stored (filtered : gmap string Entry)
    (url version : string) : bool :=
  match filtered !! version with
  | Some e => (String.length url <? len_entry e)%nat
  | None => false
  end.

(** The body of the [for] loop, on one finding. *)
Definition filter_step (cp : string) (filtered : gmap string Entry)
    (f : Finding) : gmap string Entry :=
  if shorter_than_stored filtered (f_url f) (f_version f) then filtered
  else if version_blacklisted cp (f_version f) then filtered
  else <[f_version f := entry_of f]> filtered.

Definition filter_loop (cp : string) (versions : list Finding)
    (filtered : gmap string Entry) : gmap string Entry :=
  foldl (filter_step cp) filtered versions.

(** The list comprehension over the keys of [filtered]. *)
Definition result_list (cp : string) (filtered : gmap string Entry)
    : list ScanResult :=
  (λ '(version, e), (cp, e_url e, version, e_handler e, e_confidence e))
    <$> map_to_list filtered.

Definition filter_versions (cp : string) (versions : list Finding)
    : list ScanResult :=
  result_list cp (filter_loop cp versions ∅).

End VersionFilter.

(** ** Effects

    The functions below print, report progress and call into other modules,
    and any of those calls may raise.  A computation is the list of events it
    performed, in order, together with how it ended. *)

(** An instance of Python's [Exception]: what [except Exception] catches.
    [exn_class] is [e.__class__.__name__], [exn_message] is [e.message]
    (and [str(e)]). *)
Record Exn := mkExn { exn_class : string; exn_message : string }.

Definition ZeroDivisionError : Exn :=
  mkExn "ZeroDivisionError" "integer division or modulo by zero".
Definition TypeError : Exn :=
  mkExn "TypeError" "'NoneType' object is not iterable".
Definition IndexError : Exn :=
  mkExn "IndexError" "pop from empty list".

Inductive outcome (A : Type) : Type :=
| Ok (a : A)
| Raised (e : Exn).
Arguments Ok {A} a.
Arguments Raised {A} e.

Inductive Event : Type :=
| Progress (increment : Z)                        (* on_progress(increment=..) *)
| Metadata (key value : string) (show : bool)     (* output.metadata *)
| EInfo (msg : string)                            (* output.einfo *)
| EWarn (msg : string)                            (* output.ewarn *)
| UPrint (msg : string)                           (* pp.uprint *)
| PrintStderr (msg : string)                      (* print(.., file=sys.stderr) *)
| OutResult (cp version url handler : string) (confidence : Z)
                                                  (* output.result *)
| ReloadGentoolkit                                (* reload_gentoolkit() *)
| CallScan (cpv url : string)                     (* handlers.scan(cpv, url) *)
| CallBruteForce (cpv url : string).              (* handlers.brute_force *)

Definition M (A : Type) : Type := list Event * outcome A.

#[global] Instance M_ret : MRet M := λ A a, ([], Ok a).

#[global] Instance M_bind : MBind M := λ A B f m,
  match m with
  | (t, Ok a) => let '(t', o) := f a in (t ++ t', o)
  | (t, Raised e) => (t, Raised e)
  end.

Definition emit (ev : Event) : M unit := ([ev], Ok tt).

Definition raise {A : Type} (e : Exn) : M A := ([], Raised e).

(** [try: body except Exception as e: handler]. *)
Definition try_except {A : Type} (body : M A) (handler : Exn → M A) : M A :=
  match body with
  | (t, Ok a) => (t, Ok a)
  | (t, Raised e) => let '(t', o) := handler e in (t ++ t', o)
  end.

(** A call into another module: the call is recorded, then it returns or
    raises. *)
Definition call {A : Type} (ev : Event) (r : outcome A) : M A := ([ev], r).

(** The value or the exception of a call that leaves no event. *)
Definition lift {A : Type} (r : outcome A) : M A := ([], r).

Definition when (b : bool) (m : M unit) : M unit :=
  if b then m else mret tt.

Definition trace {A : Type} (m : M A) : list Event := m.1.
Definition result {A : Type} (m : M A) : outcome A := m.2.

(** ** Strings *)

(** [needle in haystack]. *)
Fixpoint str_contains (needle haystack : string) : bool :=
  String.prefix needle haystack ||
  match haystack with
  | EmptyString => false
  | String _ rest => str_contains needle rest
  end.

(** [s.endswith(suffix)]. *)
Fixpoint endswith (s suffix : string) : bool :=
  String.eqb s suffix ||
  match s with
  | EmptyString => false
  | String _ rest => endswith rest suffix
  end.

Definition newline : string := String "010"%char EmptyString.

(** Truth value of a string-or-[None]. *)
Definition truthy (o : option string) : bool :=
  match o with
  | Some s => negb (String.eqb s "")
  | None => false
  end.

(** ** Collaborators

    Everything [scan.py] imports: the configuration, the handler registry,
    the helpers, portage and gentoolkit.  They are inputs of the model. *)

(** The options of [CONFIG] that the module reads.  [format] stands for the
    truth value of [CONFIG['format']]. *)
Record Config := mkConfig {
  quiet : bool;
  format : bool;
  oneshot : bool;
  scan_dir : bool;
  brute_force : Z
}.

(** A [gentoolkit.package.Package], by the attributes and methods used. *)
Record Package := mkPackage {
  pkg_cp : string;
  pkg_cpv : string;
  pkg_version : string;
  pkg_repo_name : string;                   (* pkg.repo_name() *)
  pkg_ebuild_path : option string;          (* pkg.ebuild_path() *)
  pkg_environment : string → bool → string  (* pkg.environment(var, prefer_vdb) *)
}.

(** The mapping from a file name to its URLs, an ordered dict: the pairs in
    iteration order; [urls[filename]] inside the loop over the keys is the
    second component. *)
Definition UrlMap : Type := list (string * list string).

(** The world around a scan.  [handlers_scan] and [handlers_brute_force]
    give what a call of the registry returns or raises for a package and a
    URL.  [Package_nonzero] is the truth value Python gives a package object
    in [if not pkg]: that of its [__nonzero__] or [__len__] where its class
    has one, and true otherwise. *)
Record World := mkWorld {
  CONFIG : Config;
  BLACKLIST_PACKAGES : list string;
  handlers_scan : string → string → outcome (list Finding);
  handlers_brute_force : string → string → outcome (list Finding);
  version_blacklisted : string → string → bool;
  (* portage *)
  pkgsplit : string → option (string * string * string);
  parse_uri_map :
    string → string * string → option (list string) → outcome UrlMap;
  settings_EAPI : string;
  settings_PORTAGE_USE : list string;       (* settings["PORTAGE_USE"].split() *)
  settings_features : list string;
  (* gentoolkit and euscan.ebuild *)
  package_from_ebuild : string → option string;
  Package_new : string → Package;           (* Package(cpv) *)
  Query_find : string → list Package;       (* Query(query).find(..) *)
  Package_lt : Package → Package → bool;    (* the order sorted() uses *)
  Package_nonzero : Package → bool;         (* truth value of a Package *)
  (* os.path, datetime *)
  normpath : string → string;
  start_time_isoformat : string;
  scan_time : string
}.

(** ** URL dispatcher *)

(** The two locals the loop updates. *)
Record LoopState := mkLoopState {
  versions : list Finding;
  progress_available : Z
}.

(** [sum([len(urls[fn]) for fn in urls])]. *)
Definition num_urls (urls : UrlMap) : Z :=
  foldr Z.add 0%Z
    ((λ p : string * list string, Z.of_nat (List.length p.2))
       <$> (urls : list (string * list string))).

(** [a / b] on Python 2 integers. *)
Definition py_div (a b : Z) : M Z :=
  if (b =? 0)%Z then raise ZeroDivisionError else mret (a / b)%Z.

(** [bool(versions) and CONFIG['oneshot']]. *)
Definition stop_now (W : World) (vs : list Finding) : bool :=
  negb (bool_decide (vs = [])) && oneshot (CONFIG W).

(** [if on_progress and progress_available > 0], at the head of the loop
    body: the increment is reported and taken off the budget.  The value is
    the budget left. *)
Definition report_url_progress (on_progress : bool) (progress_increment : Z)
    (avail : Z) : M Z :=
  if on_progress && (0 <? avail)%Z then
    emit (Progress progress_increment);;
    mret (avail - progress_increment)%Z
  else mret avail.

(** The text of the warning for a handler that raised. *)
Definition handler_failed (e : Exn) : string :=
  "Handler failed: [" +:+ exn_class e +:+ "] " +:+ exn_message e.

(** [# Try normal scan]: [versions.extend(handlers.scan(cpv, url))] inside
    the [try], under [CONFIG["scan-dir"]].  The value is [versions] after
    the block. *)
Definition structured_scan (W : World) (cpv url : string)
    (vs : list Finding) : M (list Finding) :=
  if scan_dir (CONFIG W) then
    try_except
      (found ← call (CallScan cpv url) (handlers_scan W cpv url);
       mret (vs ++ found))
      (λ e, emit (EWarn (handler_failed e));; mret vs)
  else mret vs.

(** [# Brute Force]: [versions.extend(handlers.brute_force(cpv, url))]
    under [CONFIG["brute-force"] > 0], outside of any [try]. *)
Definition brute_force_scan (W : World) (cpv url : string)
    (vs : list Finding) : M (list Finding) :=
  if (0 <? brute_force (CONFIG W))%Z then
    found ← call (CallBruteForce cpv url) (handlers_brute_force W cpv url);
    mret (vs ++ found)
  else mret vs.

(** The body of the inner loop for one URL.  The boolean is [true] when the
    body ends in [break]; [continue] and falling off the end both give
    [false]. *)
Definition scan_url (W : World) (cpv : string) (on_progress : bool)
    (progress_increment : Z) (url : string) (st : LoopState)
    : M (bool * LoopState) :=
  avail ← report_url_progress on_progress progress_increment
            (progress_available st);
  when (negb (quiet (CONFIG W)) && negb (format (CONFIG W))) (emit (UPrint ""));;
  emit (EInfo ("SRC_URI is '" +:+ url +:+ "'"));;
  if negb (str_contains "://" url) then
    emit (EInfo ("Invalid url '" +:+ url +:+ "'"));;
    mret (false, mkLoopState (versions st) avail)
  else
    vs ← structured_scan W cpv url (versions st);
    if stop_now W vs then mret (true, mkLoopState vs avail)
    else
      vs ← brute_force_scan W cpv url vs;
      if stop_now W vs then mret (true, mkLoopState vs avail)
      else mret (false, mkLoopState vs avail).

(** [for url in urls[filename]]: a [break] leaves this loop only. *)
Fixpoint scan_file (W : World) (cpv : string) (on_progress : bool)
    (progress_increment : Z) (file_urls : list string) (st : LoopState)
    : M LoopState :=
  match file_urls with
  | [] => mret st
  | url :: rest =>
      '(broke, st') ← scan_url W cpv on_progress progress_increment url st;
      if broke : bool then mret st'
      else scan_file W cpv on_progress progress_increment rest st'
  end.

(** [for filename in urls]. *)
Fixpoint scan_files (W : World) (cpv : string) (on_progress : bool)
    (progress_increment : Z) (urls : UrlMap) (st : LoopState)
    : M LoopState :=
  match urls with
  | [] => mret st
  | (_, file_urls) :: rest =>
      st' ← scan_file W cpv on_progress progress_increment file_urls st;
      scan_files W cpv on_progress progress_increment rest st'
  end.

(** [cp, ver, rev = portage.pkgsplit(cpv)]: [pkgsplit] gives [None] for a
    string it cannot split, and unpacking [None] raises. *)
Definition unpack_pkgsplit (W : World) (cpv : string)
    : M (string * string * string) :=
  match pkgsplit W cpv with
  | Some parts => mret parts
  | None => raise TypeError
  end.

Definition scan_upstream_urls (W : World) (cpv : string) (urls : UrlMap)
    (on_progress : bool) : M (list ScanResult) :=
  progress_increment ← py_div 70 (num_urls urls);
  st ← scan_files W cpv on_progress progress_increment urls
         (mkLoopState [] 70);
  '(cp, _, _) ← unpack_pkgsplit W cpv;
  let result := filter_versions (version_blacklisted W) cp (versions st) in
  when (on_progress && (0 <? progress_available st)%Z)
       (emit (Progress (progress_available st)));;
  mret result.

(** ** Scan orchestrator *)

(** [sorted(matches)]: a stable sort by the order of the elements. *)
Fixpoint insert_sorted {A : Type} (lt : A → A → bool) (x : A) (l : list A)
    : list A :=
  match l with
  | [] => [x]
  | y :: l' => if lt x y then x :: l else y :: insert_sorted lt x l'
  end.

Definition sorted {A : Type} (lt : A → A → bool) (l : list A) : list A :=
  foldl (λ acc x, insert_sorted lt x acc) [] l.

(** [while '9999' in pkg.version and len(matches): pkg = matches.pop()].
    [list.pop()] takes the last element, so [stack] holds what is left of
    [matches] with its last element first. *)
Fixpoint dev_loop (pkg : Package) (stack : list Package) : Package :=
  if str_contains "9999" (pkg_version pkg) then
    match stack with
    | [] => pkg
    | next :: stack' => dev_loop next stack'
    end
  else pkg.

(** The first block: the packages matching the query. *)
Definition find_matches (W : World) (query : string) : M (list Package) :=
  if endswith query ".ebuild" then
    match package_from_ebuild W query with
    | Some cpv =>
        if truthy (Some cpv) then
          emit ReloadGentoolkit;; mret [Package_new W cpv]
        else mret []
    | None => mret []
    end
  else mret (Query_find W query).

(** The [try] statement around the two calls of
    [porttree._parse_uri_map]; [None] is the [return None] of the [except]
    block. *)
Definition parse_uri_maps (W : World) (pkg : Package)
    : M (option (UrlMap * UrlMap)) :=
  let cpv := pkg_cpv pkg in
  let metadata := (settings_EAPI W, pkg_environment pkg "SRC_URI" false) in
  try_except
    (alist ← lift (parse_uri_map W cpv metadata
                     (Some (settings_PORTAGE_USE W)));
     aalist ← lift (parse_uri_map W cpv metadata None);
     mret (Some (alist, aalist)))
    (λ e,
     emit (EWarn (exn_message e +:+ newline));;
     emit (EWarn ("Invalid SRC_URI for '" +:+ cpv +:+ "'"));;
     mret None).

(** [output.result] on every element of the result. *)
Definition output_results (rs : list ScanResult) : M unit :=
  ((λ r : ScanResult,
      let '(cp, url, version, handler, confidence) := r in
      OutResult cp version url handler confidence) <$> rs, Ok tt).

(** The block under [if not CONFIG['quiet']]: the description of the
    package.  [gentoolkit.pprinter] only colours the text it is given; the
    model keeps the text. *)
Definition describe (W : World) (pkg : Package) : M unit :=
  when (negb (quiet (CONFIG W)))
    ((if negb (format (CONFIG W)) then
        emit (UPrint (" * " +:+ pkg_cpv pkg +:+ " ["
                      +:+ pkg_repo_name pkg +:+ "]"));;
        emit (UPrint "")
      else emit (Metadata "overlay" (pkg_repo_name pkg) true));;
     when (truthy (pkg_ebuild_path pkg))
       (emit (Metadata "ebuild"
                (normpath W (default "" (pkg_ebuild_path pkg))) true));;
     emit (Metadata "repository" (pkg_repo_name pkg) true);;
     emit (Metadata "homepage" (pkg_environment pkg "HOMEPAGE" true) true);;
     emit (Metadata "description"
             (pkg_environment pkg "DESCRIPTION" true) true)).

(** The end of [scan_upstream]: the last progress report and the output of
    the result. *)
Definition report (W : World) (on_progress : bool)
    (result : list ScanResult) : M unit :=
  when on_progress (emit (Progress 10));;
  when (0 <? List.length result)%nat
    (when (negb (format (CONFIG W) || quiet (CONFIG W)))
       (emit (PrintStderr newline));;
     output_results result).

(** The scan of the package the query resolved to: from the first metadata
    to the end of [scan_upstream]. *)
Definition scan_package (W : World) (pkg : Package) (on_progress : bool)
    : M (option (list ScanResult)) :=
  emit (Metadata "datetime" (start_time_isoformat W) false);;
  emit (Metadata "cp" (pkg_cp pkg) false);;
  emit (Metadata "cpv" (pkg_cpv pkg) false);;
  when on_progress (emit (Progress 10));;
  if bool_decide (pkg_cp pkg ∈ BLACKLIST_PACKAGES W) then
    emit (EWarn ("Package '" +:+ pkg_cp pkg +:+ "' is blacklisted"));;
    mret None
  else
    describe W pkg;;
    maps ← parse_uri_maps W pkg;
    match maps with
    | None => mret None
    | Some (alist, aalist) =>
        let urls :=
          if bool_decide ("mirror" ∈ settings_features W)
          then aalist else alist in
        emit (Metadata "scan_time" (scan_time W) false);;
        result ← scan_upstream_urls W (pkg_cpv pkg) urls on_progress;
        report W on_progress result;;
        mret (Some result)
    end.

Definition scan_upstream (W : World) (query : string) (on_progress : bool)
    : M (option (list ScanResult)) :=
  matches ← find_matches W query;
  if bool_decide (matches = []) then
    emit (EWarn ("No package matching '" +:+ query +:+ "'"));;
    mret None
  else
    match reverse (sorted (Package_lt W) matches) with
    | [] => raise IndexError
    | last :: stack =>
        let pkg := dev_loop last stack in
        if negb (Package_nonzero W pkg) then
          emit (EWarn ("Package '" +:+ pkg_cp pkg
                       +:+ "' only have a dev version (9999)"));;
          mret None
        else scan_package W pkg on_progress
    end.

(** ** Observations on a run *)

(** The increments handed to [on_progress], in order. *)
Definition increments (t : list Event) : list Z :=
  omap (λ ev, match ev with Progress i => Some i | _ => None end) t.

Definition total_progress (t : list Event) : Z :=
  foldr Z.add 0%Z (increments t).

(** The URLs the handler registry was called with, in order. *)
Definition handler_calls (t : list Event) : list string :=
  omap (λ ev, match ev with
              | CallScan _ url | CallBruteForce _ url => Some url
              | _ => None
              end) t.

(** The elements of a result that carry a given version. *)
Definition entries_for (version : string) (rs : list ScanResult)
    : list ScanResult :=
  filter (λ r, r_version r = version) rs.

(** The last finding of a list that reports a given version. *)
Fixpoint last_with_version (version : string) (vs : list Finding)
    : option Finding :=
  match vs with
  | [] => None
  | f :: rest =>
      match last_with_version version rest with
      | Some g => Some g
      | None => if decide (f_version f = version) then Some f else None
      end
  end.

(** The package [scan_upstream] settles on for a query: the one left in
    [pkg] when the [while] loop ends. *)
Definition resolved (W : World) (query : string) : option Package :=
  match result (find_matches W query) with
  | Ok matches =>
      match reverse (sorted (Package_lt W) matches) with
      | [] => None
      | last :: stack => Some (dev_loop last stack)
      end
  | Raised _ => None
  end.

(** A finding that some call of the handler registry for [cpv] returns. *)
Definition reported (W : World) (cpv : string) (g : Finding) : Prop :=
  ∃ url gs,
    (handlers_scan W cpv url = Ok gs ∨ handlers_brute_force W cpv url = Ok gs)
    ∧ g ∈ gs.

(** Brute force, where it is enabled, does not raise. *)
Definition brute_force_returns (W : World) (cpv : string) : Prop :=
  (0 < brute_force (CONFIG W))%Z →
  ∀ url e, handlers_brute_force W cpv url ≠ Raised e.

(** What a stretch [t] of the dispatch loop that takes [versions] from [vs0]
    to [vs] guarantees: nothing is lost, the findings of every structured
    scan that returned are in, every structured scan that raised left its
    warning, and nothing is in that no handler reported. *)
Definition contained (W : World) (cpv : string) (t : list Event)
    (vs0 vs : list Finding) : Prop :=
  (∀ g, g ∈ vs0 → g ∈ vs) ∧
  (∀ url fs g, CallScan cpv url ∈ t → handlers_scan W cpv url = Ok fs →
               g ∈ fs → g ∈ vs) ∧
  (∀ url e, CallScan cpv url ∈ t → handlers_scan W cpv url = Raised e →
            EWarn (handler_failed e) ∈ t) ∧
  (∀ g, g ∈ vs → g ∈ vs0 ∨ reported W cpv g).

(** The finding that a rule "the strictly longer URL wins, the first one wins
    a tie" would keep out of two. *)
Definition longer_or_first (f1 f2 : Finding) : Finding :=
  if (String.length (f_url f1) <? String.length (f_url f2))%nat then f2
  else f1.

(** ** Sample collaborators *)

Module Sample.

Definition foo : Package :=
  mkPackage "app-misc/foo" "app-misc/foo-1.0" "1.0" "gentoo"
    (Some "/usr/portage/app-misc/foo/foo-1.0.ebuild") (λ _ _, "").

Definition foo_live : Package :=
  mkPackage "app-misc/foo" "app-misc/foo-9999" "9999" "gentoo"
    (Some "/usr/portage/app-misc/foo/foo-9999.ebuild") (λ _ _, "").

Definition url_a : string := "http://a/foo-1.0.tar.gz".
Definition url_b : string := "http://b/foo-1.0.tar.gz".

Definition found_12 : Finding :=
  mkFinding "http://a/foo-1.2.tar.gz" "1.2" "generic" 80.

(** Two findings of version 2.0 behind URLs of the same length, and a
    third behind a shorter URL. *)
Definition found_20_a : Finding :=
  mkFinding "http://a/foo-2.0.tar.gz" "2.0" "generic" 80.
Definition found_20_b : Finding :=
  mkFinding "http://b/foo-2.0.tar.gz" "2.0" "github" 90.
Definition found_20_dir : Finding :=
  mkFinding "http://a/" "2.0" "generic" 80.

Definition no_blacklist : string → string → bool := λ _ _, false.
Definition blacklist_12 : string → string → bool :=
  λ _ version, String.eqb version "1.2".

Definition one_url : UrlMap := [("foo-1.0.tar.gz", [url_a])].
Definition two_files : UrlMap :=
  [("foo-1.0.tar.gz", [url_a]); ("foo-doc-1.0.tar.gz", [url_b])].

(** A registry that finds version 1.2 behind [url_a] and nothing
    elsewhere. *)
Definition scan_finds_a : string → string → outcome (list Finding) :=
  λ _ url, if String.eqb url url_a then Ok [found_12] else Ok [].

(** A registry that raises on [url_a] and finds version 1.2 behind
    [url_b]. *)
Definition timed_out : Exn := mkExn "IOError" "timed out".

(** A world with the given registry, matches and URL map, no blacklists
    and no brute force.  Package objects are true, as objects of a class
    without [__nonzero__] and [__len__] are. *)
Definition world (scan : string → string → outcome (list Finding))
    (cfg : Config) (matches : list Package) (urls : UrlMap) : World :=
  {| CONFIG := cfg;
     BLACKLIST_PACKAGES := [];
     handlers_scan := scan;
     handlers_brute_force := λ _ _, Ok [];
     version_blacklisted := λ _ _, false;
     pkgsplit := λ _, Some ("app-misc/foo", "1.0", "r0");
     parse_uri_map := λ _ _ _, Ok urls;
     settings_EAPI := "8";
     settings_PORTAGE_USE := [];
     settings_features := [];
     package_from_ebuild := λ _, None;
     Package_new := λ _, foo;
     Query_find := λ _, matches;
     Package_lt := λ p q, String.ltb (pkg_cpv p) (pkg_cpv q);
     Package_nonzero := λ _, true;
     normpath := λ p, p;
     start_time_isoformat := "2012-07-01T12:00:00";
     scan_time := "0.5" |}.

(** The same with [app-misc/foo] on the package blacklist. *)
Definition world_blacklisted (matches : list Package) (urls : UrlMap)
    : World :=
  let W := world scan_finds_a (mkConfig true false false true 0)
             matches urls in
  {| CONFIG := CONFIG W;
     BLACKLIST_PACKAGES := ["app-misc/foo"];
     handlers_scan := handlers_scan W;
     handlers_brute_force := handlers_brute_force W;
     version_blacklisted := version_blacklisted W;
     pkgsplit := pkgsplit W;
     parse_uri_map := parse_uri_map W;
     settings_EAPI := settings_EAPI W;
     settings_PORTAGE_USE := settings_PORTAGE_USE W;
     settings_features := settings_features W;
     package_from_ebuild := package_from_ebuild W;
     Package_new := Package_new W;
     Query_find := Query_find W;
     Package_lt := Package_lt W;
     Package_nonzero := Package_nonzero W;
     normpath := normpath W;
     start_time_isoformat := start_time_isoformat W;
     scan_time := scan_time W |}.

(** quiet, no format, no oneshot, scan-dir, no brute force *)
Definition cfg_default : Config := mkConfig true false false true 0.
(** the same with oneshot *)
Definition cfg_oneshot : Config := mkConfig true false true true 0.

End Sample.

(** ** [reload_gentoolkit]

    The function rebinds the module attribute [PORTDB] of three gentoolkit
    modules.  A module is seen through that attribute alone: [None] when the
    module has no attribute of this name ([hasattr] is false), [Some db] when
    it is bound to [db]. *)

Record Gentoolkit (D : Type) := mkGentoolkit {
  dbapi_PORTDB : option D;      (* gentoolkit.dbapi.PORTDB *)
  package_PORTDB : option D;    (* gentoolkit.package.PORTDB *)
  query_PORTDB : option D       (* gentoolkit.query.PORTDB *)
}.
Arguments mkGentoolkit {D} _ _ _.
Arguments dbapi_PORTDB {D} _.
Arguments package_PORTDB {D} _.
Arguments query_PORTDB {D} _.

(** [hasattr(module, 'PORTDB')]. *)
Definition hasattr {D : Type} (attr : option D) : bool :=
  match attr with Some _ => true | None => false end.

(** [PORTDB] is [portage.db[portage.root]["porttree"].dbapi]. *)
Definition reload_gentoolkit {D : Type} (PORTDB : D) (g : Gentoolkit D)
    : Gentoolkit D :=
  let g := mkGentoolkit (Some PORTDB) (package_PORTDB g) (query_PORTDB g) in
  let g :=
    if hasattr (dbapi_PORTDB g)
    then mkGentoolkit (Some PORTDB) (package_PORTDB g) (query_PORTDB g)
    else g in
  let g :=
    if hasattr (package_PORTDB g)
    then mkGentoolkit (dbapi_PORTDB g) (Some PORTDB) (query_PORTDB g)
    else g in
  if hasattr (query_PORTDB g)
  then mkGentoolkit (dbapi_PORTDB g) (package_PORTDB g) (Some PORTDB)
  else g.

(** ** Further observations on a run *)

(** The events one pass of the loop body for [url] can leave, each with the
    tests it sits under. *)
Definition url_event (W : World) (cpv : string) (on_progress : bool)
    (progress_increment : Z) (url : string) (ev : Event) : Prop :=
  match ev with
  | Progress i => on_progress = true ∧ i = progress_increment
  | UPrint _ => quiet (CONFIG W) = false ∧ format (CONFIG W) = false
  | EInfo _ => True
  | EWarn msg =>
      ∃ e, handlers_scan W cpv url = Raised e ∧ msg = handler_failed e
  | CallScan c u =>
      c = cpv ∧ u = url ∧ scan_dir (CONFIG W) = true
      ∧ str_contains "://" url = true
  | CallBruteForce c u =>
      c = cpv ∧ u = url ∧ (0 < brute_force (CONFIG W))%Z
      ∧ str_contains "://" url = true
  | _ => False
  end.

(** [url] is one of the URLs of the map. *)
Definition url_of (urls : UrlMap) (url : string) : Prop :=
  ∃ fn file_urls,
    (fn, file_urls) ∈ (urls : list (string * list string)) ∧ url ∈ file_urls.

(** A finding that the loop body can take from the handler registry for
    [url]: the URL has a scheme separator, and the finding is returned by
    the structured scan with [scan-dir] set or by brute force with a
    positive intensity. *)
Definition reported_by (W : World) (cpv url : string) (g : Finding) : Prop :=
  str_contains "://" url = true ∧
  ∃ gs, g ∈ gs ∧
    ((scan_dir (CONFIG W) = true ∧ handlers_scan W cpv url = Ok gs)
     ∨ ((0 < brute_force (CONFIG W))%Z
        ∧ handlers_brute_force W cpv url = Ok gs)).

(** The calls of [pp.uprint] and the prints to [sys.stderr]. *)
Definition is_print (ev : Event) : bool :=
  match ev with
  | UPrint _ | PrintStderr _ => true
  | _ => false
  end.

Definition prints (t : list Event) : list Event :=
  filter (λ ev, is_print ev = true) t.

(** The tuples handed to [output.result], in order, as elements of a
    result. *)
Definition results_output (t : list Event) : list ScanResult :=
  omap (λ ev, match ev with
              | OutResult cp version url handler confidence =>
                  Some (cp, url, version, handler, confidence)
              | _ => None
              end) t.

(** A stretch of a run that reports no progress, calls no handler, hands
    nothing to [output.result], and prints nothing when [quiet] or [format]
    is set. *)
Definition silent (W : World) (t : list Event) : Prop :=
  increments t = [] ∧ handler_calls t = [] ∧ results_output t = []
  ∧ (quiet (CONFIG W) = true ∨ format (CONFIG W) = true → prints t = []).

(** A version with the perpetual-development marker. *)
Definition is_dev (pkg : Package) : bool :=
  str_contains "9999" (pkg_version pkg).

(** Of the calls that the model lets raise, what can leave the dispatcher
    for [cpv] and [urls]: the exception of the division, the one of
    unpacking, or one that brute force raises for a URL of the map. *)
Definition dispatcher_exception (W : World) (cpv : string) (urls : UrlMap)
    (e : Exn) : Prop :=
  (e = ZeroDivisionError ∧ num_urls urls = 0%Z)
  ∨ (e = TypeError ∧ pkgsplit W cpv = None)
  ∨ ((0 < brute_force (CONFIG W))%Z
     ∧ ∃ url, url_of urls url ∧ str_contains "://" url = true
              ∧ handlers_brute_force W cpv url = Raised e).

(** ** Further sample collaborators *)

Module Sample2.

(** [Sample.world] with brute force at intensity 1 that raises on every
    URL, and no oneshot. *)
Definition world_brute_force_fails : World :=
  let W := Sample.world Sample.scan_finds_a Sample.cfg_default
             [Sample.foo] Sample.two_files in
  {| CONFIG := mkConfig true false false true 1;
     BLACKLIST_PACKAGES := BLACKLIST_PACKAGES W;
     handlers_scan := handlers_scan W;
     handlers_brute_force := λ _ _, Raised Sample.timed_out;
     version_blacklisted := version_blacklisted W;
     pkgsplit := pkgsplit W;
     parse_uri_map := parse_uri_map W;
     settings_EAPI := settings_EAPI W;
     settings_PORTAGE_USE := settings_PORTAGE_USE W;
     settings_features := settings_features W;
     package_from_ebuild := package_from_ebuild W;
     Package_new := Package_new W;
     Query_find := Query_find W;
     Package_lt := Package_lt W;
     Package_nonzero := Package_nonzero W;
     normpath := normpath W;
     start_time_isoformat := start_time_isoformat W;
     scan_time := scan_time W |}.

(** [Sample.world] where [portage.pkgsplit] cannot split and the SRC_URI
    cannot be parsed without use flags. *)
Definition bad_uri : Exn := mkExn "InvalidDependString" "missing operand".
Definition world_malformed : World :=
  let W := Sample.world Sample.scan_finds_a Sample.cfg_default
             [Sample.foo] Sample.two_files in
  {| CONFIG := CONFIG W;
     BLACKLIST_PACKAGES := BLACKLIST_PACKAGES W;
     handlers_scan := handlers_scan W;
     handlers_brute_force := handlers_brute_force W;
     version_blacklisted := version_blacklisted W;
     pkgsplit := λ _, None;
     parse_uri_map := λ _ _ use,
       match use with
       | Some _ => Ok Sample.two_files
       | None => Raised bad_uri
       end;
     settings_EAPI := settings_EAPI W;
     settings_PORTAGE_USE := settings_PORTAGE_USE W;
     settings_features := settings_features W;
     package_from_ebuild := package_from_ebuild W;
     Package_new := Package_new W;
     Query_find := Query_find W;
     Package_lt := Package_lt W;
     Package_nonzero := Package_nonzero W;
     normpath := normpath W;
     start_time_isoformat := start_time_isoformat W;
     scan_time := scan_time W |}.

Definition foo_09 : Package :=
  mkPackage "app-misc/foo" "app-misc/foo-0.9" "0.9" "gentoo" None (λ _ _, "").

End Sample2.

(** ** The loop, URL by URL *)







Module Sample3.





End Sample3.

(** ** Proof automation *)

(** Case analysis on every test and every collaborator call of a loop
    body. *)
Ltac run_cases :=
  repeat match goal with
         | |- context [if ?b then _ else _] => destruct b eqn:?
         | |- context [match ?o with Ok _ => _ | Raised _ => _ end] =>
             destruct o eqn:?
         end;
  simpl in *.

(** Reading the tests a case analysis has recorded. *)
Ltac read_tests :=
  repeat match goal with
         | H : _ && _ = true |- _ => apply andb_prop in H as [? ?]
         | H : negb _ = true |- _ => apply negb_true_iff in H
         | H : negb _ = false |- _ => apply negb_false_iff in H
         | H : (_ <? _)%Z = true |- _ => apply Z.ltb_lt in H
         end.

Create Rewrite HintDb run.

(** * Properties *)

(** ** The version filter *)

Section VersionFilterFacts.

Variable bl : string → string → bool.
Implicit Types (m : gmap string Entry) (vs : list Finding) (f : Finding).

Lemma filter_loop_cons cp f vs m :
  filter_loop bl cp (f :: vs) m = filter_loop bl cp vs (filter_step bl cp m f).
Proof. reflexivity. Qed.

Lemma filter_loop_app cp vs1 vs2 m :
  filter_loop bl cp (vs1 ++ vs2) m
  = filter_loop bl cp vs2 (filter_loop bl cp vs1 m).
Proof. apply foldl_app. Qed.

(** A step touches the key of its finding only. *)
Lemma filter_step_lookup_ne cp m f v :
  f_version f ≠ v → filter_step bl cp m f !! v = m !! v.
Proof.
  intros Hne. unfold filter_step.
  destruct (shorter_than_stored _ _ _); [done|].
  destruct (bl cp (f_version f)); [done|].
  by rewrite lookup_insert_ne.
Qed.

(** What a step leaves under the key of its finding. *)
Lemma filter_step_lookup_eq cp m f :
  filter_step bl cp m f !! f_version f
  = if shorter_than_stored m (f_url f) (f_version f) then m !! f_version f
    else if bl cp (f_version f) then m !! f_version f
    else Some (entry_of f).
Proof.
  unfold filter_step.
  destruct (shorter_than_stored _ _ _); [done|].
  destruct (bl cp (f_version f)); [done|].
  by rewrite lookup_insert_eq.
Qed.

Lemma filter_loop_lookup_absent cp vs m v :
  (∀ f, f ∈ vs → f_version f ≠ v) →
  filter_loop bl cp vs m !! v = m !! v.
Proof.
  revert m. induction vs as [|f vs IH]; intros m Habs; [done|].
  rewrite filter_loop_cons, IH.
  - apply filter_step_lookup_ne, Habs. left.
  - intros g Hg. apply Habs. by right.
Qed.

(** A blacklisted version is never written. *)
Lemma filter_loop_blacklisted cp vs m v :
  bl cp v = true → filter_loop bl cp vs m !! v = m !! v.
Proof.
  intros Hbl. revert m. induction vs as [|f vs IH]; intros m; [done|].
  rewrite filter_loop_cons, IH.
  destruct (decide (f_version f = v)) as [<-|Hne].
  - rewrite filter_step_lookup_eq, Hbl. by destruct (shorter_than_stored _ _ _).
  - by apply filter_step_lookup_ne.
Qed.

(** Whatever is stored under a version came from the initial dict or from
    a finding of that version. *)
Lemma filter_loop_lookup_Some cp vs m v e :
  filter_loop bl cp vs m !! v = Some e →
  m !! v = Some e ∨
  ∃ f, f ∈ vs ∧ f_version f = v ∧ e = entry_of f ∧ bl cp v = false.
Proof.
  revert m. induction vs as [|f vs IH]; intros m Hl; [by left|].
  rewrite filter_loop_cons in Hl. apply IH in Hl as [Hl|(g & Hg & ? & ? & ?)].
  - destruct (decide (f_version f = v)) as [<-|Hne].
    + rewrite filter_step_lookup_eq in Hl.
      destruct (shorter_than_stored _ _ _); [by left|].
      destruct (bl cp (f_version f)) eqn:Hbl; [by left|].
      right. exists f. split; [left|]. naive_solver.
    + rewrite filter_step_lookup_ne in Hl by done. by left.
  - right. exists g. split; [by right|done].
Qed.

(** A finding whose version is not blacklisted leaves its version in the
    dict. *)
Lemma filter_step_present cp m f :
  bl cp (f_version f) = false →
  is_Some (filter_step bl cp m f !! f_version f).
Proof.
  intros Hbl. rewrite filter_step_lookup_eq, Hbl.
  unfold shorter_than_stored.
  destruct (m !! f_version f) as [e|] eqn:Hm; [|by eexists].
  destruct (_ <? _)%nat; by eexists.
Qed.

Lemma filter_step_keeps cp m f v :
  is_Some (m !! v) → is_Some (filter_step bl cp m f !! v).
Proof.
  intros Hm. unfold filter_step.
  destruct (shorter_than_stored _ _ _); [done|].
  destruct (bl cp (f_version f)); [done|].
  by apply lookup_insert_is_Some'; right.
Qed.

Lemma filter_loop_keeps cp vs m v :
  is_Some (m !! v) → is_Some (filter_loop bl cp vs m !! v).
Proof.
  revert m. induction vs as [|f vs IH]; intros m Hm; [done|].
  rewrite filter_loop_cons. by apply IH, filter_step_keeps.
Qed.

Lemma filter_loop_present cp vs m f :
  f ∈ vs → bl cp (f_version f) = false →
  is_Some (filter_loop bl cp vs m !! f_version f).
Proof.
  intros Hin Hbl. revert m.
  induction vs as [|g vs IH]; intros m; [by apply elem_of_nil in Hin|].
  rewrite filter_loop_cons.
  apply elem_of_cons in Hin as [->|Hin].
  - by apply filter_loop_keeps, filter_step_present.
  - by apply IH.
Qed.

End VersionFilterFacts.

(** ** The result list *)

Lemma r_version_result_list cp (m : gmap string Entry) :
  r_version <$> result_list cp m = (map_to_list m).*1.
Proof.
  unfold result_list. rewrite <- list_fmap_compose.
  apply list_fmap_ext. by intros _ [v e] _.
Qed.

Lemma elem_of_result_list cp (m : gmap string Entry) (r : ScanResult) :
  r ∈ result_list cp m ↔
  ∃ v e, m !! v = Some e ∧ r = (cp, e_url e, v, e_handler e, e_confidence e).
Proof.
  unfold result_list. rewrite list_elem_of_fmap. split.
  - intros ([v e] & -> & Hin). exists v, e.
    by apply elem_of_map_to_list in Hin.
  - intros (v & e & Hl & ->). exists (v, e).
    by rewrite elem_of_map_to_list.
Qed.

(** In a list without two elements of the same key, the elements of one key
    are at most one. *)
Lemma filter_key_NoDup {A K : Type} `{EqDecision K} (key : A → K)
    (l : list A) (k : K) :
  NoDup (key <$> l) →
  filter (λ x, key x = k) l = [] ∨
  ∃ x, x ∈ l ∧ key x = k ∧ filter (λ x, key x = k) l = [x].
Proof.
  induction l as [|a l IH]; intros Hnd; [by left|].
  rewrite fmap_cons in Hnd. apply NoDup_cons in Hnd as [Hnotin Hnd].
  destruct (decide (key a = k)) as [Heq|Hne].
  - right. exists a. split; [left|]. split; [done|].
    rewrite filter_cons_True by done. f_equal.
    destruct (IH Hnd) as [->|(x & Hx & Hk & _)]; [done|].
    exfalso. apply Hnotin. rewrite Heq, <- Hk.
    by apply list_elem_of_fmap_2.
  - rewrite filter_cons_False by done.
    destruct (IH Hnd) as [?|(x & Hx & Hk & Hf)]; [by left|].
    right. exists x. split; [by right|done].
Qed.

(** The elements of the result with version [v] are read off the dict. *)
Lemma entries_for_result_list cp (m : gmap string Entry) (v : string) :
  entries_for v (result_list cp m)
  = match m !! v with
    | Some e => [(cp, e_url e, v, e_handler e, e_confidence e)]
    | None => []
    end.
Proof.
  unfold entries_for.
  destruct (filter_key_NoDup r_version (result_list cp m) v)
    as [Hnil|(r & Hr & Hv & Hone)].
  - rewrite r_version_result_list. apply NoDup_fst_map_to_list.
  - rewrite Hnil. destruct (m !! v) as [e|] eqn:Hm; [|done].
    exfalso.
    assert ((cp, e_url e, v, e_handler e, e_confidence e)
              ∈ filter (λ r, r_version r = v) (result_list cp m)) as Hin.
    { apply list_elem_of_filter. split; [done|].
      apply elem_of_result_list. eauto. }
    rewrite Hnil in Hin. by apply elem_of_nil in Hin.
  - rewrite Hone. apply elem_of_result_list in Hr as (v' & e & Hm & ->).
    simpl in Hv. subst v'. by rewrite Hm.
Qed.

(** ** Claims on [filter_versions] *)

(** C8. For every input list of findings, the output of [filter_versions]
    holds at most one element per version string: the versions of the
    output are pairwise different. *)
Theorem filter_versions_at_most_one_per_version
    (bl : string → string → bool) (cp : string) (vs : list Finding) :
  NoDup (r_version <$> filter_versions bl cp vs).
Proof.
  unfold filter_versions. rewrite r_version_result_list.
  apply NoDup_fst_map_to_list.
Qed.

(** C7. A version that the version blacklist rejects for [cp] never appears
    in the output of [filter_versions], however many input findings
    propose it. *)
Theorem filter_versions_drops_blacklisted
    (bl : string → string → bool) (cp : string) (vs : list Finding)
    (v : string) :
  bl cp v = true →
  ∀ r, r ∈ filter_versions bl cp vs → r_version r ≠ v.
Proof.
  intros Hbl r Hr Hv. unfold filter_versions in Hr.
  apply elem_of_result_list in Hr as (v' & e & Hm & ->).
  simpl in Hv. subst v'.
  by rewrite filter_loop_blacklisted, lookup_empty in Hm.
Qed.

Section KeepsLast.

Variable bl : string → string → bool.

Lemma last_with_version_Some v vs f :
  last_with_version v vs = Some f → f ∈ vs ∧ f_version f = v.
Proof.
  induction vs as [|g vs IH]; simpl; [done|].
  destruct (last_with_version v vs) as [h|].
  - intros [= ->]. destruct IH as [? ?]; [done|]. split; [by right|done].
  - case_decide; [|done]. intros [= ->]. split; [left|done].
Qed.

(** With URLs of three characters or more the length test never skips a
    finding. *)
Lemma shorter_than_stored_long m url v :
  (3 ≤ String.length url)%nat → shorter_than_stored m url v = false.
Proof.
  intros Hlen. unfold shorter_than_stored, len_entry.
  destruct (m !! v); [|done]. apply Nat.ltb_ge. lia.
Qed.

Lemma filter_loop_lookup_last cp vs (m : gmap string Entry) v :
  (∀ f, f ∈ vs → (3 ≤ String.length (f_url f))%nat) →
  filter_loop bl cp vs m !! v
  = if bl cp v then m !! v
    else match last_with_version v vs with
         | Some f => Some (entry_of f)
         | None => m !! v
         end.
Proof.
  revert m. induction vs as [|f vs IH]; intros m Hlen.
  - simpl. by destruct (bl cp v).
  - rewrite filter_loop_cons, IH by (intros g Hg; apply Hlen; by right).
    simpl. destruct (bl cp v) eqn:Hbl.
    + destruct (decide (f_version f = v)) as [<-|Hne].
      * rewrite filter_step_lookup_eq, Hbl.
        by destruct (shorter_than_stored _ _ _).
      * by apply filter_step_lookup_ne.
    + destruct (last_with_version v vs) as [g|]; [done|].
      case_decide as Hf.
      * subst v. rewrite filter_step_lookup_eq, Hbl.
        rewrite shorter_than_stored_long; [done|]. apply Hlen. left.
      * by apply filter_step_lookup_ne.
Qed.

End KeepsLast.

(** C9. When every URL of the input has at least three characters,
    [filter_versions] keeps for each version the last finding of the input
    that reports it (and nothing for a blacklisted version): a later finding
    replaces an earlier one of the same version whatever the lengths of the
    two URLs, because the length test compares with the number of fields of
    the stored record. *)
Theorem filter_versions_keeps_last
    (bl : string → string → bool) (cp : string) (vs : list Finding) :
  (∀ f, f ∈ vs → (3 ≤ String.length (f_url f))%nat) →
  ∀ v, entries_for v (filter_versions bl cp vs)
       = if bl cp v then []
         else match last_with_version v vs with
              | Some f => [result_of cp f]
              | None => []
              end.
Proof.
  intros Hlen v. unfold filter_versions.
  rewrite entries_for_result_list, (filter_loop_lookup_last bl cp vs ∅ v Hlen).
  rewrite lookup_empty. destruct (bl cp v); [done|].
  destruct (last_with_version v vs) as [f|] eqn:Hl; [|done].
  apply last_with_version_Some in Hl as [_ <-]. done.
Qed.

(** The later of two findings of one version wins although its URL is the
    shorter one. *)
Example filter_versions_shorter_url_replaces :
  filter_versions Sample.no_blacklist "app-misc/foo"
    [Sample.found_20_a; Sample.found_20_dir]
  = [result_of "app-misc/foo" Sample.found_20_dir].
Proof. vm_compute. reflexivity. Qed.

(** What is stored for a version that exactly two findings report. *)
Lemma filter_loop_two_of_one_version
    (bl : string → string → bool) (cp : string)
    (l1 l2 l3 : list Finding) (f1 f2 : Finding) :
  f_version f2 = f_version f1 →
  bl cp (f_version f1) = false →
  (∀ g, g ∈ l1 ++ l2 ++ l3 → f_version g ≠ f_version f1) →
  filter_loop bl cp (l1 ++ f1 :: l2 ++ f2 :: l3) ∅ !! f_version f1
  = Some (if (String.length (f_url f2) <? 3)%nat then entry_of f1
          else entry_of f2).
Proof.
  intros Hv Hbl Hother.
  rewrite filter_loop_app, filter_loop_cons, filter_loop_app, filter_loop_cons.
  rewrite filter_loop_lookup_absent
    by (intros g Hg; apply Hother; set_solver).
  rewrite <- Hv at 1. rewrite filter_step_lookup_eq, !Hv, Hbl.
  set (m1 := filter_loop bl cp l1 ∅).
  assert (filter_loop bl cp l2 (filter_step bl cp m1 f1) !! f_version f1
          = Some (entry_of f1)) as Hm2.
  { rewrite filter_loop_lookup_absent
      by (intros g Hg; apply Hother; set_solver).
    rewrite filter_step_lookup_eq, Hbl.
    assert (m1 !! f_version f1 = None) as Hm1.
    { unfold m1. rewrite filter_loop_lookup_absent; [done|].
      intros g Hg; apply Hother; set_solver. }
    unfold shorter_than_stored. by rewrite Hm1. }
  unfold shorter_than_stored. rewrite Hm2. unfold len_entry.
  by destruct (_ <? _)%nat.
Qed.

(** C3, as the code has it. Of two findings of one version that is not
    blacklisted, the output keeps exactly one; and when the two URLs have the
    same length, of three characters or more, it keeps the one met last. *)
Theorem filter_versions_two_of_one_version
    (bl : string → string → bool) (cp : string)
    (l1 l2 l3 : list Finding) (f1 f2 : Finding) :
  f_version f2 = f_version f1 →
  bl cp (f_version f1) = false →
  (∀ g, g ∈ l1 ++ l2 ++ l3 → f_version g ≠ f_version f1) →
  let out := entries_for (f_version f1)
               (filter_versions bl cp (l1 ++ f1 :: l2 ++ f2 :: l3)) in
  (out = [result_of cp f1] ∨ out = [result_of cp f2]) ∧
  (String.length (f_url f1) = String.length (f_url f2) →
   (3 ≤ String.length (f_url f2))%nat →
   out = [result_of cp f2]).
Proof.
  intros Hv Hbl Hother out. subst out. unfold filter_versions.
  rewrite entries_for_result_list.
  rewrite (filter_loop_two_of_one_version bl cp l1 l2 l3 f1 f2 Hv Hbl Hother).
  destruct (String.length (f_url f2) <? 3)%nat eqn:Hlt.
  - split; [by left|]. intros _ Hge. apply Nat.ltb_lt in Hlt. lia.
  - unfold result_of. rewrite Hv. split; [by right|done].
Qed.

Lemma filter_versions_two_of_one_version_witness :
  let out := entries_for "2.0"
               (filter_versions Sample.no_blacklist "app-misc/foo"
                  [Sample.found_12; Sample.found_20_a; Sample.found_20_b]) in
  (out = [result_of "app-misc/foo" Sample.found_20_a]
   ∨ out = [result_of "app-misc/foo" Sample.found_20_b]) ∧
  (String.length (f_url Sample.found_20_a)
   = String.length (f_url Sample.found_20_b) →
   (3 ≤ String.length (f_url Sample.found_20_b))%nat →
   out = [result_of "app-misc/foo" Sample.found_20_b]).
Proof.
  apply (filter_versions_two_of_one_version Sample.no_blacklist "app-misc/foo"
           [Sample.found_12] [] [] Sample.found_20_a Sample.found_20_b).
  - reflexivity.
  - reflexivity.
  - intros g Hg. apply list_elem_of_singleton in Hg. subst g. discriminate.
Defined.

(** C3 as stated fails: with two URLs of the same length the code keeps the
    finding met last, not the first one. *)
Lemma filter_versions_tie_keeps_last :
  String.length (f_url Sample.found_20_a)
  = String.length (f_url Sample.found_20_b) ∧
  entries_for "2.0"
    (filter_versions Sample.no_blacklist "app-misc/foo"
       [Sample.found_20_a; Sample.found_20_b])
  = [result_of "app-misc/foo" Sample.found_20_b] ∧
  entries_for "2.0"
    (filter_versions Sample.no_blacklist "app-misc/foo"
       [Sample.found_20_a; Sample.found_20_b])
  ≠ [result_of "app-misc/foo"
       (longer_or_first Sample.found_20_a Sample.found_20_b)].
Proof. vm_compute. split; [reflexivity|]. split; [reflexivity|]. discriminate. Qed.

Lemma filter_versions_drops_blacklisted_witness :
  Sample.blacklist_12 "app-misc/foo" "1.2" = true ∧
  Forall (λ r, r_version r ≠ "1.2")
    (filter_versions Sample.blacklist_12 "app-misc/foo"
       [Sample.found_12; Sample.found_20_a; Sample.found_12]).
Proof.
  split; [reflexivity|]. apply Forall_forall.
  apply (filter_versions_drops_blacklisted Sample.blacklist_12 "app-misc/foo").
  reflexivity.
Defined.

Lemma filter_versions_keeps_last_witness :
  entries_for "2.0"
    (filter_versions Sample.no_blacklist "app-misc/foo"
       [Sample.found_20_a; Sample.found_12; Sample.found_20_dir])
  = [result_of "app-misc/foo" Sample.found_20_dir].
Proof.
  apply (filter_versions_keeps_last Sample.no_blacklist "app-misc/foo"
           [Sample.found_20_a; Sample.found_12; Sample.found_20_dir]).
  intros f Hf. repeat (apply elem_of_cons in Hf as [->|Hf]); simpl; try lia.
  by apply elem_of_nil in Hf.
Defined.

(** ** Runs: the trace and the outcome of a sequence *)

Section Runs.

Context {A B : Type}.

Lemma trace_bind (m : M A) (f : A → M B) :
  trace (m ≫= f)
  = trace m ++ match result m with
               | Ok a => trace (f a)
               | Raised _ => []
               end.
Proof.
  destruct m as [t [a|e]]; unfold mbind, M_bind, trace; simpl.
  - by destruct (f a).
  - by rewrite app_nil_r.
Qed.

Lemma result_bind (m : M A) (f : A → M B) :
  result (m ≫= f)
  = match result m with
    | Ok a => result (f a)
    | Raised e => Raised e
    end.
Proof.
  destruct m as [t [a|e]]; unfold mbind, M_bind, result; simpl; [|done].
  by destruct (f a).
Qed.

End Runs.

Lemma ret_bind {A B : Type} (a : A) (f : A → M B) : mret a ≫= f = f a.
Proof. unfold mbind, M_bind, mret, M_ret. by destruct (f a). Qed.

Lemma trace_emit_bind {B : Type} (ev : Event) (f : unit → M B) :
  trace (emit ev ≫= f) = ev :: trace (f tt).
Proof. by rewrite trace_bind. Qed.

Lemma result_emit_bind {B : Type} (ev : Event) (f : unit → M B) :
  result (emit ev ≫= f) = result (f tt).
Proof. by rewrite result_bind. Qed.

Lemma trace_ret {A : Type} (a : A) : trace (mret a) = [].
Proof. reflexivity. Qed.

Lemma result_ret {A : Type} (a : A) : result (mret a) = Ok a.
Proof. reflexivity. Qed.

Lemma when_true (m : M unit) : when true m = m.
Proof. reflexivity. Qed.

Lemma when_false (m : M unit) : when false m = mret tt.
Proof. reflexivity. Qed.

Lemma increments_app (t1 t2 : list Event) :
  increments (t1 ++ t2) = increments t1 ++ increments t2.
Proof. apply omap_app. Qed.

Lemma total_progress_app (t1 t2 : list Event) :
  total_progress (t1 ++ t2) = (total_progress t1 + total_progress t2)%Z.
Proof.
  unfold total_progress. rewrite increments_app.
  induction (increments t1) as [|i l IH]; simpl; [done|]. rewrite IH. lia.
Qed.

Lemma total_progress_cons (ev : Event) (t : list Event) :
  total_progress (ev :: t)
  = (match ev with Progress i => i | _ => 0 end + total_progress t)%Z.
Proof. by destruct ev. Qed.

Lemma total_progress_nil : total_progress [] = 0%Z.
Proof. reflexivity. Qed.

Lemma total_progress_no_increments (t : list Event) :
  increments t = [] → total_progress t = 0%Z.
Proof. unfold total_progress. by intros ->. Qed.

(** ** The URL dispatcher *)

Section Dispatcher.

Variables (W : World) (cpv : string) (inc : Z).

(** What one loop body reports, and what it leaves of the budget. *)
Lemma scan_url_progress on_progress url st :
  total_progress (trace (scan_url W cpv on_progress inc url st))
  = (if on_progress && (0 <? progress_available st)%Z then inc else 0)%Z
  ∧ ∀ b st', result (scan_url W cpv on_progress inc url st) = Ok (b, st') →
      progress_available st'
      = (if on_progress && (0 <? progress_available st)%Z
         then progress_available st - inc else progress_available st)%Z.
Proof.
  unfold scan_url, report_url_progress, structured_scan, brute_force_scan,
    when, call, try_except, emit, stop_now, trace, result,
    mbind, M_bind, mret, M_ret.
  run_cases; split; try done; try (intros ? ? [= <- <-]; done);
    unfold total_progress; simpl; lia.
Qed.

Lemma scan_file_unfold on_progress url rest st :
  scan_file W cpv on_progress inc (url :: rest) st
  = scan_url W cpv on_progress inc url st ≫= λ p : bool * LoopState,
      if p.1 then mret p.2
      else scan_file W cpv on_progress inc rest p.2.
Proof.
  simpl. unfold mbind, M_bind.
  by destruct (scan_url W cpv on_progress inc url st) as [t [[b st1]|e]].
Qed.

(** The budget left after the URLs of one file, when [k] URLs were still
    to come before it. *)
Lemma scan_file_progress file_urls st k :
  (0 ≤ inc)%Z →
  (Z.of_nat (List.length file_urls) ≤ k)%Z →
  (inc * k ≤ progress_available st)%Z →
  ∀ st', result (scan_file W cpv true inc file_urls st) = Ok st' →
    total_progress (trace (scan_file W cpv true inc file_urls st))
    = (progress_available st - progress_available st')%Z
    ∧ (inc * (k - Z.of_nat (List.length file_urls))
       ≤ progress_available st')%Z.
Proof.
  intros Hinc. revert st k.
  induction file_urls as [|url rest IH]; intros st k Hk Hav st' Hres.
  - simpl in *. injection Hres as <-. unfold total_progress. simpl.
    split; lia.
  - rewrite scan_file_unfold in *.
    rewrite trace_bind, total_progress_app. rewrite result_bind in Hres.
    destruct (scan_url_progress true url st) as [Ht Hst].
    rewrite Ht. clear Ht.
    destruct (result (scan_url W cpv true inc url st))
      as [[broke st1]|e] eqn:Hurl; [|done].
    specialize (Hst _ _ eq_refl). simpl in *.
    assert (inc * (k - 1) ≤ progress_available st1)%Z as Hav1.
    { rewrite Hst. destruct (0 <? progress_available st)%Z eqn:Hpos; nia. }
    destruct broke.
    + injection Hres as <-.
      replace (total_progress (trace (mret st1))) with 0%Z by done.
      destruct (0 <? progress_available st)%Z; split; (lia || nia).
    + destruct (IH st1 (k - 1)%Z ltac:(lia) Hav1 st' Hres) as [Ht' Hlow].
      rewrite Ht'.
      destruct (0 <? progress_available st)%Z; split; (lia || nia).
Qed.

Lemma num_urls_cons fn file_urls (urls : UrlMap) :
  num_urls ((fn, file_urls) :: urls)
  = (Z.of_nat (List.length file_urls) + num_urls urls)%Z.
Proof. reflexivity. Qed.

Lemma num_urls_nonneg (urls : UrlMap) : (0 ≤ num_urls urls)%Z.
Proof.
  induction urls as [|[fn us] urls IH]; [done|].
  rewrite num_urls_cons. lia.
Qed.

(** The loop over the files hands out what it takes from the budget, and
    never more than the budget holds. *)
Lemma scan_files_progress (urls : UrlMap) st :
  (0 ≤ inc)%Z →
  (inc * num_urls urls ≤ progress_available st)%Z →
  ∀ st', result (scan_files W cpv true inc urls st) = Ok st' →
    total_progress (trace (scan_files W cpv true inc urls st))
    = (progress_available st - progress_available st')%Z
    ∧ (0 ≤ progress_available st')%Z.
Proof.
  intros Hinc. revert st.
  induction urls as [|[fn us] urls IH]; intros st Hav st' Hres.
  - replace (num_urls []) with 0%Z in Hav by done.
    simpl in *. injection Hres as <-. unfold total_progress. simpl.
    split; lia.
  - rewrite num_urls_cons in Hav. pose proof (num_urls_nonneg urls).
    simpl in *. rewrite trace_bind, total_progress_app.
    rewrite result_bind in Hres.
    destruct (result (scan_file W cpv true inc us st)) as [st1|e] eqn:Hfile;
      [|done].
    destruct (scan_file_progress us st
                (Z.of_nat (List.length us) + num_urls urls)%Z
                Hinc ltac:(lia) Hav st1 Hfile) as [Ht Hlow].
    destruct (IH st1 ltac:(etrans; [|exact Hlow];
                           apply Z.eq_le_incl; f_equal; lia) st' Hres)
      as [Ht' Hpos].
    rewrite Ht, Ht'. split; lia.
Qed.

End Dispatcher.

(** A call of the dispatcher that returns has handed out exactly the 70 of
    its budget. *)
Lemma scan_upstream_urls_progress W cpv (urls : UrlMap) :
  ∀ r, result (scan_upstream_urls W cpv urls true) = Ok r →
    total_progress (trace (scan_upstream_urls W cpv urls true)) = 70%Z.
Proof.
  intros r Hr. unfold scan_upstream_urls in *.
  rewrite trace_bind, total_progress_app. rewrite result_bind in Hr.
  unfold py_div in *. pose proof (num_urls_nonneg urls) as Hn.
  destruct (num_urls urls =? 0)%Z eqn:Hz; [done|].
  apply Z.eqb_neq in Hz. simpl in *.
  rewrite trace_bind, total_progress_app. rewrite result_bind in Hr.
  set (inc := (70 / num_urls urls)%Z) in *.
  destruct (result (scan_files W cpv true inc urls (mkLoopState [] 70)))
    as [st|e] eqn:Hloop; [|done].
  assert (0 ≤ inc)%Z as Hinc by (apply Z.div_pos; lia).
  assert (inc * num_urls urls ≤ 70)%Z as Hfit.
  { rewrite Z.mul_comm. apply Z.mul_div_le. lia. }
  destruct (scan_files_progress W cpv inc urls (mkLoopState [] 70)
              Hinc Hfit st Hloop) as [Ht Hpos].
  rewrite Ht. simpl.
  rewrite trace_bind, total_progress_app. rewrite result_bind in Hr.
  unfold unpack_pkgsplit in *.
  destruct (pkgsplit W cpv) as [[[cp ver] rev]|]; [|done]. simpl in *.
  rewrite trace_bind, total_progress_app.
  unfold when. destruct (0 <? progress_available st)%Z eqn:Hleft; simpl.
  - unfold total_progress. simpl. lia.
  - apply Z.ltb_ge in Hleft. unfold total_progress. simpl. lia.
Qed.

(** ** The scan orchestrator *)

Section Orchestrator.

Variable W : World.

(** Looking up the matches reports no progress and never raises. *)
Lemma find_matches_returns query :
  ∃ matches, result (find_matches W query) = Ok matches
             ∧ increments (trace (find_matches W query)) = [].
Proof.
  unfold find_matches.
  destruct (endswith query ".ebuild"); [|by eexists].
  destruct (package_from_ebuild W query) as [cpv|]; [|by eexists].
  destruct (truthy (Some cpv)); by eexists.
Qed.

Lemma describe_returns pkg :
  result (describe W pkg) = Ok tt
  ∧ increments (trace (describe W pkg)) = [].
Proof.
  unfold describe, when, emit, trace, result, mbind, M_bind, mret, M_ret.
  by run_cases.
Qed.

Lemma parse_uri_maps_returns pkg :
  ∃ maps, result (parse_uri_maps W pkg) = Ok maps
          ∧ increments (trace (parse_uri_maps W pkg)) = [].
Proof.
  unfold parse_uri_maps, try_except, lift, emit, trace, result,
    mbind, M_bind, mret, M_ret.
  destruct (parse_uri_map W _ _ (Some _)) as [alist|e]; simpl;
    [|by eexists].
  destruct (parse_uri_map W _ _ None) as [aalist|e]; simpl; by eexists.
Qed.

Lemma report_returns on_progress rs :
  result (report W on_progress rs) = Ok tt
  ∧ increments (trace (report W on_progress rs))
    = (if on_progress then [10%Z] else []).
Proof.
  assert (∀ rs, increments (trace (output_results rs)) = []) as Hout.
  { clear. intros rs. unfold output_results, trace. simpl.
    induction rs as [|[[[[cp url] v] h] c] rs IH]; [done|].
    by rewrite fmap_cons. }
  pose proof (Hout rs) as Hi.
  unfold report, when, emit, mbind, M_bind, mret, M_ret.
  unfold trace, result in *.
  destruct (output_results rs) as [t o] eqn:Ho.
  assert (o = Ok tt) as -> by (unfold output_results in Ho; congruence).
  simpl in *.
  run_cases; rewrite ?app_nil_r, ?Hi; done.
Qed.

End Orchestrator.

#[local] Hint Rewrite @trace_emit_bind @result_emit_bind @trace_ret
  @result_ret when_true when_false
  @ret_bind total_progress_cons total_progress_app total_progress_nil
  : run.

(** C1, as the code has it. For every call of [scan_upstream] with a progress
    callback that returns a result (not [None], no exception), the
    increments handed to the callback sum to exactly 90: 10 once the package
    is known, the 70 of the dispatcher, 10 at the end. *)
Theorem scan_upstream_increments_sum W query r :
  result (scan_upstream W query true) = Ok (Some r) →
  total_progress (trace (scan_upstream W query true)) = 90%Z.
Proof.
  intros Hr. unfold scan_upstream in *.
  rewrite trace_bind, total_progress_app. rewrite result_bind in Hr.
  destruct (find_matches_returns W query) as (ms & Hms & Hinc).
  rewrite Hms in *. rewrite (total_progress_no_increments _ Hinc).
  destruct (bool_decide (ms = [])); [by autorewrite with run in Hr|].
  destruct (reverse (sorted (Package_lt W) ms)) as [|last stack]; [done|].
  set (pkg := dev_loop last stack) in *.
  destruct (negb (Package_nonzero W pkg)); [by autorewrite with run in Hr|].
  unfold scan_package in *. autorewrite with run in *.
  destruct (bool_decide (pkg_cp pkg ∈ BLACKLIST_PACKAGES W));
    [by autorewrite with run in Hr|].
  rewrite trace_bind, total_progress_app. rewrite result_bind in Hr.
  destruct (describe_returns W pkg) as (Hd & Hdi).
  rewrite Hd in *. rewrite (total_progress_no_increments _ Hdi).
  rewrite trace_bind, total_progress_app. rewrite result_bind in Hr.
  destruct (parse_uri_maps_returns W pkg) as (maps & Hp & Hpi).
  rewrite Hp in *. rewrite (total_progress_no_increments _ Hpi).
  destruct maps as [[alist aalist]|]; [|done].
  set (urls := if bool_decide ("mirror" ∈ settings_features W)
               then aalist else alist) in *.
  autorewrite with run in *.
  rewrite trace_bind, total_progress_app. rewrite result_bind in Hr.
  destruct (result (scan_upstream_urls W (pkg_cpv pkg) urls true))
    as [rs|e] eqn:Hurls; [|done].
  rewrite (scan_upstream_urls_progress W _ urls rs Hurls).
  rewrite trace_bind, total_progress_app.
  destruct (report_returns W true rs) as (Hrep & Hri).
  rewrite Hrep. unfold total_progress at 1. rewrite Hri. simpl.
  unfold total_progress. simpl. lia.
Qed.

Lemma scan_upstream_increments_sum_witness :
  result (scan_upstream
            (Sample.world Sample.scan_finds_a Sample.cfg_default
               [Sample.foo] Sample.two_files) "foo" true)
  = Ok (Some [result_of "app-misc/foo" Sample.found_12]) ∧
  total_progress
    (trace (scan_upstream
              (Sample.world Sample.scan_finds_a Sample.cfg_default
                 [Sample.foo] Sample.two_files) "foo" true))
  = 90%Z.
Proof.
  split; [vm_compute; reflexivity|].
  apply (scan_upstream_increments_sum
           (Sample.world Sample.scan_finds_a Sample.cfg_default
              [Sample.foo] Sample.two_files) "foo"
           [result_of "app-misc/foo" Sample.found_12]).
  vm_compute. reflexivity.
Defined.

(** C1 as stated fails: a scan of a package with one URL runs to completion
    and reports 10, 70 and 10, which is 90 and not 100. *)
Lemma scan_upstream_one_url_reports_90 :
  let run := scan_upstream
               (Sample.world Sample.scan_finds_a Sample.cfg_default
                  [Sample.foo] Sample.one_url) "foo" true in
  result run = Ok (Some [result_of "app-misc/foo" Sample.found_12]) ∧
  increments (trace run) = [10%Z; 70%Z; 10%Z] ∧
  total_progress (trace run) ≠ 100%Z.
Proof. vm_compute. split; [reflexivity|]. split; [reflexivity|]. discriminate. Qed.

(** C4. For a map that declares no URL in total the dispatcher does not
    return an empty result: the division [70 / num_urls] raises
    [ZeroDivisionError] before anything else happens, whether a callback is
    given or not. *)
Theorem scan_upstream_urls_zero_urls_raises
    W cpv (urls : UrlMap) on_progress :
  num_urls urls = 0%Z →
  scan_upstream_urls W cpv urls on_progress = ([], Raised ZeroDivisionError).
Proof.
  intros Hn. unfold scan_upstream_urls, py_div.
  rewrite Hn. reflexivity.
Qed.

Lemma scan_upstream_urls_zero_urls_raises_witness :
  num_urls [] = 0%Z ∧
  scan_upstream_urls
    (Sample.world Sample.scan_finds_a Sample.cfg_default [Sample.foo] [])
    "app-misc/foo-1.0" [] false
  = ([], Raised ZeroDivisionError).
Proof.
  split; [reflexivity|].
  apply (scan_upstream_urls_zero_urls_raises
           (Sample.world Sample.scan_finds_a Sample.cfg_default
              [Sample.foo] [])
           "app-misc/foo-1.0" [] false).
  reflexivity.
Defined.

(** C2. With oneshot set and a finding behind the only URL of the first
    file, the registry is still called for the URL of the second file: the
    [break] leaves the loop over the URLs of one file, not the loop over the
    files. *)
Theorem oneshot_scans_next_file :
  let W := Sample.world Sample.scan_finds_a Sample.cfg_oneshot
             [Sample.foo] Sample.two_files in
  oneshot (CONFIG W) = true ∧
  handlers_scan W "app-misc/foo-1.0" Sample.url_a = Ok [Sample.found_12] ∧
  handler_calls
    (trace (scan_upstream_urls W "app-misc/foo-1.0" Sample.two_files true))
  = [Sample.url_a; Sample.url_b].
Proof. vm_compute. repeat split; reflexivity. Qed.

(** C5. A query whose only match is a 9999 version is not turned away: the
    guard [if not pkg] does not fire on a package object, no warning is
    printed, and the URL of the package is scanned. *)
Theorem dev_only_package_is_scanned :
  let W := Sample.world Sample.scan_finds_a Sample.cfg_default
             [Sample.foo_live] Sample.one_url in
  Forall (λ p, str_contains "9999" (pkg_version p) = true)
    (Query_find W "foo") ∧
  scan_upstream W "foo" true
  = ([Metadata "datetime" "2012-07-01T12:00:00" false;
      Metadata "cp" "app-misc/foo" false;
      Metadata "cpv" "app-misc/foo-9999" false;
      Progress 10;
      Metadata "scan_time" "0.5" false;
      Progress 70;
      EInfo "SRC_URI is 'http://a/foo-1.0.tar.gz'";
      CallScan "app-misc/foo-9999" "http://a/foo-1.0.tar.gz";
      Progress 10;
      OutResult "app-misc/foo" "1.2" "http://a/foo-1.2.tar.gz" "generic" 80],
     Ok (Some [result_of "app-misc/foo" Sample.found_12])).
Proof.
  split; [|vm_compute; reflexivity].
  repeat constructor.
Qed.


(** A query that resolves to a package whose truth value is true runs the
    scan of that package. *)
Lemma scan_upstream_resolved W query on_progress pkg :
  resolved W query = Some pkg →
  Package_nonzero W pkg = true →
  trace (scan_upstream W query on_progress)
  = trace (find_matches W query) ++ trace (scan_package W pkg on_progress)
  ∧ result (scan_upstream W query on_progress)
    = result (scan_package W pkg on_progress).
Proof.
  unfold resolved, scan_upstream. intros Hres Hnz.
  rewrite trace_bind, result_bind.
  destruct (result (find_matches W query)) as [ms|e]; [|done].
  destruct (reverse (sorted (Package_lt W) ms)) as [|last stack] eqn:Hrev;
    [done|].
  injection Hres as <-.
  assert (ms ≠ []) as Hne by (by intros ->).
  rewrite bool_decide_eq_false_2 by done. by rewrite Hnz.
Qed.

(** C10. When the package the query resolves to (a package object, so a
    true value) is on the package blacklist, [scan_upstream] returns [None]
    after it has emitted the metadata [datetime], [cp] and [cpv] and
    reported an increment of 10 to the callback, in this order; the warning
    comes last, and the progress reported over the whole call is 10. *)
Theorem scan_upstream_blacklisted_reports_10 W query pkg :
  resolved W query = Some pkg →
  Package_nonzero W pkg = true →
  pkg_cp pkg ∈ BLACKLIST_PACKAGES W →
  trace (scan_upstream W query true)
  = trace (find_matches W query)
    ++ [Metadata "datetime" (start_time_isoformat W) false;
        Metadata "cp" (pkg_cp pkg) false;
        Metadata "cpv" (pkg_cpv pkg) false;
        Progress 10;
        EWarn ("Package '" +:+ pkg_cp pkg +:+ "' is blacklisted")]
  ∧ result (scan_upstream W query true) = Ok None
  ∧ total_progress (trace (scan_upstream W query true)) = 10%Z.
Proof.
  intros Hres Hnz Hbl.
  destruct (scan_upstream_resolved W query true pkg Hres Hnz) as [Ht Hr].
  assert (scan_package W pkg true
          = ([Metadata "datetime" (start_time_isoformat W) false;
              Metadata "cp" (pkg_cp pkg) false;
              Metadata "cpv" (pkg_cpv pkg) false;
              Progress 10;
              EWarn ("Package '" +:+ pkg_cp pkg +:+ "' is blacklisted")],
             Ok None)) as Hpkg.
  { unfold scan_package. by rewrite bool_decide_eq_true_2. }
  rewrite Ht, Hr, Hpkg. split; [done|]. split; [done|].
  rewrite total_progress_app.
  destruct (find_matches_returns W query) as (ms & _ & Hinc).
  by rewrite (total_progress_no_increments _ Hinc).
Qed.

Lemma scan_upstream_blacklisted_reports_10_witness :
  let W := Sample.world_blacklisted [Sample.foo] Sample.one_url in
  trace (scan_upstream W "foo" true)
  = trace (find_matches W "foo")
    ++ [Metadata "datetime" (start_time_isoformat W) false;
        Metadata "cp" (pkg_cp Sample.foo) false;
        Metadata "cpv" (pkg_cpv Sample.foo) false;
        Progress 10;
        EWarn ("Package '" +:+ pkg_cp Sample.foo +:+ "' is blacklisted")]
  ∧ result (scan_upstream W "foo" true) = Ok None
  ∧ total_progress (trace (scan_upstream W "foo" true)) = 10%Z.
Proof.
  apply (scan_upstream_blacklisted_reports_10
           (Sample.world_blacklisted [Sample.foo] Sample.one_url)
           "foo" Sample.foo).
  - reflexivity.
  - reflexivity.
  - apply list_elem_of_singleton. reflexivity.
Defined.

(** ** Handler faults *)

Section Containment.

Variables (W : World) (cpv : string).

Lemma contained_silent t vs :
  (∀ url, CallScan cpv url ∉ t) → contained W cpv t vs vs.
Proof.
  intros Hsilent. repeat split.
  - done.
  - intros url fs g Hin. by destruct (Hsilent url).
  - intros url e Hin. by destruct (Hsilent url).
  - intros g Hg. by left.
Qed.

Lemma contained_app t1 t2 vs0 vs1 vs2 :
  contained W cpv t1 vs0 vs1 → contained W cpv t2 vs1 vs2 →
  contained W cpv (t1 ++ t2) vs0 vs2.
Proof.
  intros (Hk1 & Hs1 & Hf1 & Hp1) (Hk2 & Hs2 & Hf2 & Hp2). repeat split.
  - intros g Hg. by apply Hk2, Hk1.
  - intros url fs g [Hin|Hin]%elem_of_app Hscan Hg.
    + eapply Hk2, Hs1; eauto.
    + eapply Hs2; eauto.
  - intros url e [Hin|Hin]%elem_of_app Hscan; apply elem_of_app.
    + left. eapply Hf1; eauto.
    + right. eapply Hf2; eauto.
  - intros g Hg. destruct (Hp2 g Hg) as [Hg1|?]; [|by right].
    by apply Hp1.
Qed.

Lemma contained_cons t ev vs0 vs :
  (∀ url, ev ≠ CallScan cpv url) →
  contained W cpv t vs0 vs → contained W cpv (ev :: t) vs0 vs.
Proof.
  intros Hev Ht. apply (contained_app [ev] t vs0 vs0 vs); [|done].
  apply contained_silent. intros url Hin.
  apply list_elem_of_singleton in Hin. by destruct (Hev url).
Qed.

Lemma contained_nil vs : contained W cpv [] vs vs.
Proof. apply contained_silent. intros url Hin. by apply elem_of_nil in Hin. Qed.

(** The structured scan of a URL never raises: what the handler raises is
    caught and logged, what it returns is appended. *)
Lemma structured_scan_contained url vs :
  ∃ vs', result (structured_scan W cpv url vs) = Ok vs'
         ∧ contained W cpv (trace (structured_scan W cpv url vs)) vs vs'.
Proof.
  unfold structured_scan.
  destruct (scan_dir (CONFIG W)).
  2:{ exists vs. split; [done|]. apply contained_silent.
      intros u Hin. by apply elem_of_nil in Hin. }
  unfold try_except, call, emit, trace, result, mbind, M_bind, mret, M_ret.
  destruct (handlers_scan W cpv url) as [found|e] eqn:Hscan; simpl.
  - exists (vs ++ found). split; [done|]. repeat split.
    + intros g Hg. apply elem_of_app. by left.
    + intros u fs g Hin Hu Hg.
      apply list_elem_of_singleton in Hin. injection Hin as ->.
      rewrite Hscan in Hu. injection Hu as <-.
      apply elem_of_app. by right.
    + intros u e Hin Hu.
      apply list_elem_of_singleton in Hin. injection Hin as ->. congruence.
    + intros g [Hg|Hg]%elem_of_app; [by left|].
      right. exists url, found. split; [by left|done].
  - exists vs. split; [done|]. repeat split.
    + done.
    + intros u fs g Hin Hu.
      apply elem_of_cons in Hin as [Heq|Hin].
      * injection Heq as ->. congruence.
      * apply list_elem_of_singleton in Hin. done.
    + intros u e' Hin Hu.
      apply elem_of_cons in Hin as [Heq|Hin].
      * injection Heq as ->. rewrite Hscan in Hu. injection Hu as <-.
        right. left.
      * apply list_elem_of_singleton in Hin. done.
    + intros g Hg. by left.
Qed.

Lemma brute_force_scan_contained url vs :
  brute_force_returns W cpv →
  ∃ vs', result (brute_force_scan W cpv url vs) = Ok vs'
         ∧ contained W cpv (trace (brute_force_scan W cpv url vs)) vs vs'.
Proof.
  intros Hbf. unfold brute_force_scan.
  destruct (0 <? brute_force (CONFIG W))%Z eqn:Hon.
  2:{ exists vs. split; [done|]. apply contained_silent.
      intros u Hin. by apply elem_of_nil in Hin. }
  apply Z.ltb_lt in Hon. specialize (Hbf Hon url).
  unfold call, trace, result, mbind, M_bind, mret, M_ret.
  destruct (handlers_brute_force W cpv url) as [found|e] eqn:Hscan; simpl;
    [|by destruct (Hbf e)].
  exists (vs ++ found). split; [done|]. repeat split.
  - intros g Hg. apply elem_of_app. by left.
  - intros u fs g Hin. by apply list_elem_of_singleton in Hin.
  - intros u e Hin. by apply list_elem_of_singleton in Hin.
  - intros g [Hg|Hg]%elem_of_app; [by left|].
    right. exists url, found. split; [by right|done].
Qed.

End Containment.

Section LoopContainment.

Variables (W : World) (cpv : string) (on_progress : bool) (inc : Z).
Hypothesis Hbf : brute_force_returns W cpv.

Lemma scan_url_contained url st :
  ∃ b st', result (scan_url W cpv on_progress inc url st) = Ok (b, st')
           ∧ contained W cpv (trace (scan_url W cpv on_progress inc url st))
               (versions st) (versions st').
Proof.
  unfold scan_url. rewrite trace_bind, result_bind.
  set (pre := report_url_progress on_progress inc (progress_available st)).
  assert (∃ avail, result pre = Ok avail ∧ ∀ u, CallScan cpv u ∉ trace pre)
    as (avail & Hpre & Hsilent).
  { unfold pre, report_url_progress.
    destruct (on_progress && _); eexists; (split; [done|]);
      intros u Hin; simpl in Hin;
      first [ by apply elem_of_nil in Hin
            | by apply list_elem_of_singleton in Hin ]. }
  rewrite Hpre.
  assert (∀ t vs', contained W cpv t (versions st) vs' →
                   contained W cpv (trace pre ++ t) (versions st) vs')
    as Hwrap.
  { intros t vs' Hc.
    eapply contained_app; [by apply contained_silent|done]. }
  destruct (negb (quiet (CONFIG W)) && negb (format (CONFIG W)));
    autorewrite with run.
  all: destruct (negb (str_contains "://" url)); autorewrite with run.
  all: try (eexists _, _; split; [done|]; apply Hwrap;
            repeat (apply contained_cons; [done|]);
            apply contained_nil).
  all: rewrite trace_bind, result_bind.
  all: destruct (structured_scan_contained W cpv url (versions st))
         as (vs1 & Hs1 & Hc1); rewrite Hs1.
  all: destruct (stop_now W vs1); autorewrite with run.
  all: try (eexists _, _; split; [done|]; apply Hwrap;
            repeat (apply contained_cons; [done|]);
            rewrite app_nil_r; done).
  all: rewrite trace_bind, result_bind.
  all: destruct (brute_force_scan_contained W cpv url vs1 Hbf)
         as (vs2 & Hs2 & Hc2); rewrite Hs2.
  all: destruct (stop_now W vs2); autorewrite with run.
  all: eexists _, _; (split; [done|]); apply Hwrap;
         repeat (apply contained_cons; [done|]);
         rewrite app_nil_r; by eapply contained_app.
Qed.

Lemma scan_file_contained file_urls st :
  ∃ st', result (scan_file W cpv on_progress inc file_urls st) = Ok st'
         ∧ contained W cpv
             (trace (scan_file W cpv on_progress inc file_urls st))
             (versions st) (versions st').
Proof.
  revert st. induction file_urls as [|url rest IH]; intros st.
  - exists st. split; [done|]. apply contained_nil.
  - rewrite scan_file_unfold, trace_bind, result_bind.
    destruct (scan_url_contained url st) as (b & st1 & Hu & Hc).
    rewrite Hu. simpl. destruct b.
    + exists st1. split; [done|]. by rewrite app_nil_r.
    + destruct (IH st1) as (st' & Hr & Hc'). exists st'.
      split; [done|]. by eapply contained_app.
Qed.

Lemma scan_files_contained (urls : UrlMap) st :
  ∃ st', result (scan_files W cpv on_progress inc urls st) = Ok st'
         ∧ contained W cpv
             (trace (scan_files W cpv on_progress inc urls st))
             (versions st) (versions st').
Proof.
  revert st. induction urls as [|[fn us] urls IH]; intros st.
  - exists st. split; [done|]. apply contained_nil.
  - simpl. rewrite trace_bind, result_bind.
    destruct (scan_file_contained us st) as (st1 & Hf & Hc).
    rewrite Hf. destruct (IH st1) as (st' & Hr & Hc'). exists st'.
    split; [done|]. by eapply contained_app.
Qed.

End LoopContainment.

(** A finding of a version that is not blacklisted leaves an element of its
    version in the result, built from a finding of the input. *)
Lemma filter_versions_present (bl : string → string → bool) (cp : string)
    (vs : list Finding) (f : Finding) :
  f ∈ vs → bl cp (f_version f) = false →
  ∃ g, g ∈ vs ∧ f_version g = f_version f
       ∧ result_of cp g ∈ filter_versions bl cp vs.
Proof.
  intros Hin Hbl.
  destruct (filter_loop_present bl cp vs ∅ f Hin Hbl) as [e He].
  destruct (filter_loop_lookup_Some bl cp vs ∅ _ e He)
    as [Hempty|(g & Hg & Hv & -> & _)].
  { by rewrite lookup_empty in Hempty. }
  exists g. split; [done|]. split; [done|].
  unfold filter_versions. apply elem_of_result_list.
  exists (f_version f), (entry_of g). split; [done|].
  unfold result_of. by rewrite Hv.
Qed.

(** * Further properties *)

(** ** More on the version filter *)

Section VersionFilterMore.

Variable bl : string → string → bool.

(** Findings of pairwise different versions are known by their version. *)
Lemma same_version_same_finding (vs : list Finding) (f g : Finding) :
  NoDup (f_version <$> vs) → f ∈ vs → g ∈ vs →
  f_version f = f_version g → f = g.
Proof.
  induction vs as [|h vs IH]; intros Hnd Hf Hg Hv.
  { by apply elem_of_nil in Hf. }
  rewrite fmap_cons in Hnd. apply NoDup_cons in Hnd as [Hnotin Hnd].
  apply elem_of_cons in Hf as [->|Hf]; apply elem_of_cons in Hg as [->|Hg].
  - done.
  - exfalso. apply Hnotin. rewrite Hv. by apply list_elem_of_fmap_2.
  - exfalso. apply Hnotin. rewrite <- Hv. by apply list_elem_of_fmap_2.
  - by apply IH.
Qed.

(** A finding of a blacklisted version leaves the dict as it is. *)
Lemma filter_step_blacklisted cp (m : gmap string Entry) (f : Finding) :
  bl cp (f_version f) = true → filter_step bl cp m f = m.
Proof.
  intros Hbl. unfold filter_step. rewrite Hbl.
  by destruct (shorter_than_stored _ _ _).
Qed.

(** The dict grows by one key at most with each finding. *)
Lemma filter_loop_size cp (vs : list Finding) (m : gmap string Entry) :
  (size (filter_loop bl cp vs m) ≤ size m + List.length vs)%nat.
Proof.
  revert m. induction vs as [|f vs IH]; intros m; [simpl; lia|].
  rewrite filter_loop_cons. etrans; [apply IH|]. simpl.
  assert (size (filter_step bl cp m f) ≤ S (size m))%nat; [|lia].
  unfold filter_step.
  destruct (shorter_than_stored _ _ _); [lia|].
  destruct (bl cp (f_version f)); [lia|].
  rewrite map_size_insert. destruct (m !! f_version f); simpl; lia.
Qed.

End VersionFilterMore.

(** X1. Every element of the output of [filter_versions] is an input
    finding, tagged with [cp], whose version is not blacklisted: the filter
    invents nothing and mixes no two findings. *)
Theorem filter_versions_from_input
    (bl : string → string → bool) (cp : string) (vs : list Finding)
    (r : ScanResult) :
  r ∈ filter_versions bl cp vs →
  ∃ f, f ∈ vs ∧ r = result_of cp f ∧ bl cp (f_version f) = false.
Proof.
  unfold filter_versions. intros (v & e & Hm & ->)%elem_of_result_list.
  destruct (filter_loop_lookup_Some bl cp vs ∅ v e Hm)
    as [Hempty|(f & Hf & <- & -> & Hbl)].
  { by rewrite lookup_empty in Hempty. }
  exists f. done.
Qed.

Lemma filter_versions_from_input_witness :
  ∃ f, f ∈ [Sample.found_20_a; Sample.found_12]
       ∧ result_of "app-misc/foo" Sample.found_12
         = result_of "app-misc/foo" f
       ∧ Sample.no_blacklist "app-misc/foo" (f_version f) = false.
Proof.
  apply (filter_versions_from_input Sample.no_blacklist "app-misc/foo"
           [Sample.found_20_a; Sample.found_12]).
  vm_compute. left.
Defined.

(** X2. The versions of the output of [filter_versions] are exactly the
    versions of the input that are not blacklisted for [cp]. *)
Theorem filter_versions_versions
    (bl : string → string → bool) (cp : string) (vs : list Finding)
    (v : string) :
  (∃ r, r ∈ filter_versions bl cp vs ∧ r_version r = v)
  ↔ (bl cp v = false ∧ ∃ f, f ∈ vs ∧ f_version f = v).
Proof.
  split.
  - intros (r & Hr & <-).
    unfold filter_versions in Hr.
    apply elem_of_result_list in Hr as (v & e & Hm & ->). simpl.
    destruct (filter_loop_lookup_Some bl cp vs ∅ v e Hm)
      as [Hempty|(f & Hf & Hv & _ & Hbl)].
    { by rewrite lookup_empty in Hempty. }
    split; [done|]. by exists f.
  - intros (Hbl & f & Hf & <-).
    destruct (filter_versions_present bl cp vs f Hf Hbl) as (g & _ & Hv & Hg).
    exists (result_of cp g). split; [done|]. done.
Qed.

(** X3. Of exactly two findings of one version that is not blacklisted, the
    output keeps the second, unless the URL of the second has fewer than
    three characters: then it keeps the first.  The lengths of the two URLs
    are not compared with each other. *)
Theorem filter_versions_second_replaces_first
    (bl : string → string → bool) (cp : string)
    (l1 l2 l3 : list Finding) (f1 f2 : Finding) :
  f_version f2 = f_version f1 →
  bl cp (f_version f1) = false →
  (∀ g, g ∈ l1 ++ l2 ++ l3 → f_version g ≠ f_version f1) →
  entries_for (f_version f1)
    (filter_versions bl cp (l1 ++ f1 :: l2 ++ f2 :: l3))
  = [result_of cp (if (String.length (f_url f2) <? 3)%nat then f1 else f2)].
Proof.
  intros Hv Hbl Hother. unfold filter_versions.
  rewrite entries_for_result_list.
  rewrite (filter_loop_two_of_one_version bl cp l1 l2 l3 f1 f2 Hv Hbl Hother).
  unfold result_of. destruct (_ <? _)%nat; [done|]. by rewrite Hv.
Qed.

Lemma filter_versions_second_replaces_first_witness :
  entries_for "2.0"
    (filter_versions Sample.no_blacklist "app-misc/foo"
       [Sample.found_20_dir; Sample.found_12;
        mkFinding "-" "2.0" "generic" 10])
  = [result_of "app-misc/foo" Sample.found_20_dir].
Proof.
  apply (filter_versions_second_replaces_first Sample.no_blacklist
           "app-misc/foo" [] [Sample.found_12] []
           Sample.found_20_dir (mkFinding "-" "2.0" "generic" 10)).
  - reflexivity.
  - reflexivity.
  - intros g Hg. apply list_elem_of_singleton in Hg. subst g. discriminate.
Defined.

(** X4. When the findings have pairwise different versions and none of them
    is blacklisted, [filter_versions] drops nothing: its output is the
    input, each finding tagged with [cp], in some order. *)
Theorem filter_versions_distinct_versions
    (bl : string → string → bool) (cp : string) (vs : list Finding) :
  NoDup (f_version <$> vs) →
  (∀ f, f ∈ vs → bl cp (f_version f) = false) →
  filter_versions bl cp vs ≡ₚ result_of cp <$> vs.
Proof.
  intros Hnd Hbl. apply NoDup_Permutation.
  - apply (NoDup_fmap_1 r_version). unfold filter_versions.
    rewrite r_version_result_list. apply NoDup_fst_map_to_list.
  - apply (NoDup_fmap_1 r_version). rewrite <- list_fmap_compose.
    replace (r_version ∘ result_of cp <$> vs) with (f_version <$> vs);
      [done|].
    by apply list_fmap_ext.
  - intros r. rewrite list_elem_of_fmap. split.
    + intros Hr.
      unfold filter_versions in Hr.
      apply elem_of_result_list in Hr as (v & e & Hm & ->).
      destruct (filter_loop_lookup_Some bl cp vs ∅ v e Hm)
        as [Hempty|(f & Hf & <- & -> & _)].
      { by rewrite lookup_empty in Hempty. }
      by exists f.
    + intros (f & -> & Hf).
      destruct (filter_versions_present bl cp vs f Hf (Hbl f Hf))
        as (g & Hg & Hv & Hin).
      by rewrite <- (same_version_same_finding vs g f Hnd Hg Hf Hv).
Qed.

Lemma filter_versions_distinct_versions_witness :
  filter_versions Sample.no_blacklist "app-misc/foo"
    [Sample.found_20_a; Sample.found_12]
  ≡ₚ result_of "app-misc/foo" <$> [Sample.found_20_a; Sample.found_12].
Proof.
  apply (filter_versions_distinct_versions Sample.no_blacklist "app-misc/foo"
           [Sample.found_20_a; Sample.found_12]).
  - apply (bool_decide_unpack _). vm_compute. exact I.
  - intros f _. reflexivity.
Defined.

(** X5. The output of [filter_versions] is never longer than its input. *)
Theorem filter_versions_length
    (bl : string → string → bool) (cp : string) (vs : list Finding) :
  (List.length (filter_versions bl cp vs) ≤ List.length vs)%nat.
Proof.
  unfold filter_versions, result_list.
  rewrite length_fmap, length_map_to_list.
  etrans; [apply filter_loop_size|]. rewrite map_size_empty. lia.
Qed.

(** X6. Findings of blacklisted versions have no effect on the output, and
    neither has their place in the input: the output is that of the input
    without them. *)
Theorem filter_versions_ignores_blacklisted
    (bl : string → string → bool) (cp : string) (vs : list Finding) :
  filter_versions bl cp (filter (λ f, bl cp (f_version f) = false) vs)
  = filter_versions bl cp vs.
Proof.
  unfold filter_versions. f_equal. generalize (∅ : gmap string Entry).
  induction vs as [|f vs IH]; intros m; [done|].
  destruct (bl cp (f_version f)) eqn:Hbl.
  - rewrite filter_cons_False by (by rewrite Hbl).
    by rewrite filter_loop_cons, filter_step_blacklisted.
  - rewrite filter_cons_True by done. rewrite !filter_loop_cons. apply IH.
Qed.

(** X7. A finding whose URL has fewer than three characters does not
    replace what an earlier finding stored for its version: the output is
    the same without it. *)
Theorem filter_versions_short_url_skipped
    (bl : string → string → bool) (cp : string)
    (l1 l2 : list Finding) (f g : Finding) :
  g ∈ l1 → f_version g = f_version f →
  bl cp (f_version f) = false →
  (String.length (f_url f) < 3)%nat →
  filter_versions bl cp (l1 ++ f :: l2) = filter_versions bl cp (l1 ++ l2).
Proof.
  intros Hg Hv Hbl Hshort. unfold filter_versions. f_equal.
  rewrite !filter_loop_app, filter_loop_cons. f_equal.
  rewrite <- Hv in Hbl.
  destruct (filter_loop_present bl cp l1 ∅ g Hg Hbl) as [e He].
  rewrite Hv in He. unfold filter_step, shorter_than_stored.
  rewrite He. unfold len_entry.
  by rewrite (proj2 (Nat.ltb_lt _ _) Hshort).
Qed.

Lemma filter_versions_short_url_skipped_witness :
  filter_versions Sample.no_blacklist "app-misc/foo"
    ([Sample.found_20_a] ++ mkFinding "-" "2.0" "generic" 10
       :: [Sample.found_12])
  = filter_versions Sample.no_blacklist "app-misc/foo"
      ([Sample.found_20_a] ++ [Sample.found_12]).
Proof.
  apply (filter_versions_short_url_skipped Sample.no_blacklist "app-misc/foo"
           [Sample.found_20_a] [Sample.found_12]
           (mkFinding "-" "2.0" "generic" 10) Sample.found_20_a).
  - left.
  - reflexivity.
  - reflexivity.
  - simpl. lia.
Defined.

(** ** More on the URL dispatcher *)

Lemma handler_calls_app (t1 t2 : list Event) :
  handler_calls (t1 ++ t2) = handler_calls t1 ++ handler_calls t2.
Proof. apply omap_app. Qed.

Lemma results_output_app (t1 t2 : list Event) :
  results_output (t1 ++ t2) = results_output t1 ++ results_output t2.
Proof. apply omap_app. Qed.

Lemma prints_app (t1 t2 : list Event) :
  prints (t1 ++ t2) = prints t1 ++ prints t2.
Proof. apply filter_app. Qed.

(** With at least one URL the division returns and the dispatcher is its
    loop, the unpacking, the filter and the flush. *)
Lemma scan_upstream_urls_unfold W cpv (urls : UrlMap) on_progress :
  num_urls urls ≠ 0%Z →
  scan_upstream_urls W cpv urls on_progress
  = scan_files W cpv on_progress (70 / num_urls urls) urls (mkLoopState [] 70)
    ≫= λ st,
      unpack_pkgsplit W cpv ≫= λ parts,
        when (on_progress && (0 <? progress_available st)%Z)
          (emit (Progress (progress_available st)));;
        mret (filter_versions (version_blacklisted W) parts.1.1 (versions st)).
Proof.
  intros Hn. unfold scan_upstream_urls, py_div.
  rewrite (proj2 (Z.eqb_neq _ _) Hn), ret_bind.
  unfold mbind, M_bind, unpack_pkgsplit.
  destruct (scan_files _ _ _ _ _ _) as [t [st|e]]; [|done].
  by destruct (pkgsplit W cpv) as [[[cp ver] rev]|].
Qed.

Section DispatcherEvents.

Variables (W : World) (cpv : string) (on_progress : bool) (inc : Z).

(** Every event of one pass of the loop body is one of [url_event]. *)
Lemma scan_url_events url st ev :
  ev ∈ trace (scan_url W cpv on_progress inc url st) →
  url_event W cpv on_progress inc url ev.
Proof.
  unfold scan_url, report_url_progress, structured_scan, brute_force_scan,
    when, call, try_except, emit, stop_now, trace, result,
    mbind, M_bind, mret, M_ret.
  run_cases; intros Hin; read_tests;
    repeat (apply elem_of_cons in Hin as [->|Hin]);
    try (by apply elem_of_nil in Hin); simpl; eauto.
Qed.

Lemma scan_file_events file_urls st ev :
  ev ∈ trace (scan_file W cpv on_progress inc file_urls st) →
  ∃ url, url ∈ file_urls ∧ url_event W cpv on_progress inc url ev.
Proof.
  revert st. induction file_urls as [|url rest IH]; intros st.
  { intros Hin. by apply elem_of_nil in Hin. }
  rewrite scan_file_unfold, trace_bind.
  intros [Hin|Hin]%elem_of_app.
  - exists url. split; [left|]. by eapply scan_url_events.
  - destruct (result (scan_url W cpv on_progress inc url st))
      as [[[] st1]|e]; simpl in Hin; try (by apply elem_of_nil in Hin).
    destruct (IH st1 Hin) as (u & Hu & Hev). exists u. split; [by right|done].
Qed.

Lemma scan_files_events (urls : UrlMap) st ev :
  ev ∈ trace (scan_files W cpv on_progress inc urls st) →
  ∃ url, url_of urls url ∧ url_event W cpv on_progress inc url ev.
Proof.
  revert st. induction urls as [|[fn us] urls IH]; intros st.
  { intros Hin. by apply elem_of_nil in Hin. }
  simpl. rewrite trace_bind. intros [Hin|Hin]%elem_of_app.
  - destruct (scan_file_events us st ev Hin) as (u & Hu & Hev).
    exists u. split; [|done]. exists fn, us. split; [left|done].
  - destruct (result (scan_file W cpv on_progress inc us st)) as [st1|e];
      [|by apply elem_of_nil in Hin].
    destruct (IH st1 Hin) as (u & (fn' & us' & Hmap & Hu) & Hev).
    exists u. split; [|done]. exists fn', us'. split; [by right|done].
Qed.

End DispatcherEvents.

(** Every event of the dispatcher is an event of the loop body for a URL of
    the map, or the flush of a positive remainder. *)
Lemma scan_upstream_urls_events W cpv (urls : UrlMap) on_progress ev :
  ev ∈ trace (scan_upstream_urls W cpv urls on_progress) →
  (∃ url, url_of urls url
          ∧ url_event W cpv on_progress (70 / num_urls urls) url ev)
  ∨ (∃ a, ev = Progress a ∧ on_progress = true ∧ (0 < a)%Z).
Proof.
  destruct (decide (num_urls urls = 0%Z)) as [Hz|Hn].
  { unfold scan_upstream_urls, py_div. rewrite Hz. simpl.
    intros Hin. by apply elem_of_nil in Hin. }
  rewrite (scan_upstream_urls_unfold W cpv urls on_progress Hn).
  rewrite trace_bind. intros [Hin|Hin]%elem_of_app.
  { left. by eapply scan_files_events. }
  destruct (result (scan_files _ _ _ _ _ _)) as [st|e];
    [|by apply elem_of_nil in Hin].
  unfold unpack_pkgsplit in Hin.
  destruct (pkgsplit W cpv) as [parts|]; [|by apply elem_of_nil in Hin].
  rewrite ret_bind, trace_bind in Hin. unfold when in Hin.
  destruct (on_progress && (0 <? progress_available st)%Z) eqn:Hflush;
    simpl in Hin.
  - apply list_elem_of_singleton in Hin. read_tests. right. eauto.
  - by apply elem_of_nil in Hin.
Qed.

(** X8. The handler registry is only ever called for the package at hand,
    with a URL of the map that has a scheme separator. *)
Theorem registry_calls_are_for_valid_urls
    W cpv (urls : UrlMap) on_progress c u :
  CallScan c u ∈ trace (scan_upstream_urls W cpv urls on_progress)
  ∨ CallBruteForce c u ∈ trace (scan_upstream_urls W cpv urls on_progress) →
  c = cpv ∧ url_of urls u ∧ str_contains "://" u = true.
Proof.
  intros [Hin|Hin];
    apply scan_upstream_urls_events in Hin
      as [(url & Hurl & Hev)|(a & Ha & _)];
    try discriminate; simpl in Hev;
    destruct Hev as (-> & -> & _ & Hvalid); done.
Qed.

Lemma registry_calls_are_for_valid_urls_witness :
  "app-misc/foo-1.0" = "app-misc/foo-1.0"
  ∧ url_of Sample.two_files Sample.url_b
  ∧ str_contains "://" Sample.url_b = true.
Proof.
  apply (registry_calls_are_for_valid_urls
           (Sample.world Sample.scan_finds_a Sample.cfg_default
              [Sample.foo] Sample.two_files)
           "app-misc/foo-1.0" Sample.two_files true
           "app-misc/foo-1.0" Sample.url_b).
  left. vm_compute. do 5 right. left.
Defined.

Section DispatcherProvenance.

Variables (W : World) (cpv : string) (on_progress : bool) (inc : Z).

Lemma structured_scan_provenance url vs vs' :
  result (structured_scan W cpv url vs) = Ok vs' →
  ∀ g, g ∈ vs' →
    g ∈ vs ∨ ∃ gs, g ∈ gs ∧ scan_dir (CONFIG W) = true
                   ∧ handlers_scan W cpv url = Ok gs.
Proof.
  unfold structured_scan.
  destruct (scan_dir (CONFIG W)); [|intros [= <-] g Hg; by left].
  unfold try_except, call, emit, result, mbind, M_bind, mret, M_ret.
  destruct (handlers_scan W cpv url) as [found|e]; simpl.
  - intros [= <-] g [Hg|Hg]%elem_of_app; [by left|].
    right. by exists found.
  - intros [= <-] g Hg. by left.
Qed.

Lemma brute_force_scan_provenance url vs vs' :
  result (brute_force_scan W cpv url vs) = Ok vs' →
  ∀ g, g ∈ vs' →
    g ∈ vs ∨ ∃ gs, g ∈ gs ∧ (0 < brute_force (CONFIG W))%Z
                   ∧ handlers_brute_force W cpv url = Ok gs.
Proof.
  unfold brute_force_scan.
  destruct (0 <? brute_force (CONFIG W))%Z eqn:Hon;
    [|intros [= <-] g Hg; by left].
  apply Z.ltb_lt in Hon.
  unfold call, result, mbind, M_bind, mret, M_ret.
  destruct (handlers_brute_force W cpv url) as [found|e]; simpl; [|done].
  intros [= <-] g [Hg|Hg]%elem_of_app; [by left|].
  right. by exists found.
Qed.

(** What one pass of the loop body adds to [versions] was reported for its
    URL. *)
Lemma scan_url_provenance url st b st' :
  result (scan_url W cpv on_progress inc url st) = Ok (b, st') →
  ∀ g, g ∈ versions st' → g ∈ versions st ∨ reported_by W cpv url g.
Proof.
  unfold scan_url. rewrite result_bind.
  assert (∃ avail, result (report_url_progress on_progress inc
                             (progress_available st)) = Ok avail)
    as [avail ->].
  { unfold report_url_progress. destruct (_ && _); by eexists. }
  rewrite result_bind.
  assert (result (when (negb (quiet (CONFIG W)) && negb (format (CONFIG W)))
                    (emit (UPrint ""))) = Ok tt) as ->.
  { by destruct (_ && _). }
  rewrite result_emit_bind.
  destruct (negb (str_contains "://" url)) eqn:Hvalid.
  { rewrite result_emit_bind, result_ret. intros [= <- <-] g Hg. by left. }
  apply negb_false_iff in Hvalid.
  rewrite result_bind.
  destruct (result (structured_scan W cpv url (versions st)))
    as [vs1|e] eqn:Hs1; [|done].
  pose proof (structured_scan_provenance url _ _ Hs1) as Hp1.
  assert (∀ g, g ∈ vs1 → g ∈ versions st ∨ reported_by W cpv url g) as Hq1.
  { intros g Hg. destruct (Hp1 g Hg) as [?|(gs & ? & ? & ?)]; [by left|].
    right. split; [done|]. exists gs. split; [done|]. by left. }
  destruct (stop_now W vs1).
  { rewrite result_ret. intros [= <- <-]. exact Hq1. }
  rewrite result_bind.
  destruct (result (brute_force_scan W cpv url vs1))
    as [vs2|e] eqn:Hs2; [|done].
  pose proof (brute_force_scan_provenance url _ _ Hs2) as Hp2.
  assert (∀ g, g ∈ vs2 → g ∈ versions st ∨ reported_by W cpv url g) as Hq2.
  { intros g Hg. destruct (Hp2 g Hg) as [?|(gs & ? & ? & ?)]; [by apply Hq1|].
    right. split; [done|]. exists gs. split; [done|]. by right. }
  destruct (stop_now W vs2); rewrite result_ret; intros [= <- <-]; exact Hq2.
Qed.

Lemma scan_file_provenance file_urls st st' :
  result (scan_file W cpv on_progress inc file_urls st) = Ok st' →
  ∀ g, g ∈ versions st' →
    g ∈ versions st ∨ ∃ url, url ∈ file_urls ∧ reported_by W cpv url g.
Proof.
  revert st. induction file_urls as [|url rest IH]; intros st.
  { intros [= <-] g Hg. by left. }
  rewrite scan_file_unfold, result_bind.
  destruct (result (scan_url W cpv on_progress inc url st))
    as [[b st1]|e] eqn:Hurl; [|done].
  pose proof (scan_url_provenance url st b st1 Hurl) as Hprov.
  simpl. destruct b.
  - intros [= <-] g Hg. destruct (Hprov g Hg) as [?|?]; [by left|].
    right. exists url. split; [left|done].
  - intros Hrest g Hg.
    destruct (IH st1 Hrest g Hg) as [Hg1|(u & Hu & Hrep)].
    + destruct (Hprov g Hg1) as [?|?]; [by left|].
      right. exists url. split; [left|done].
    + right. exists u. split; [by right|done].
Qed.

Lemma scan_files_provenance (urls : UrlMap) st st' :
  result (scan_files W cpv on_progress inc urls st) = Ok st' →
  ∀ g, g ∈ versions st' →
    g ∈ versions st ∨ ∃ url, url_of urls url ∧ reported_by W cpv url g.
Proof.
  revert st. induction urls as [|[fn us] urls IH]; intros st.
  { intros [= <-] g Hg. by left. }
  simpl. rewrite result_bind.
  destruct (result (scan_file W cpv on_progress inc us st))
    as [st1|e] eqn:Hfile; [|done].
  pose proof (scan_file_provenance us st st1 Hfile) as Hprov.
  intros Hrest g Hg.
  destruct (IH st1 Hrest g Hg) as [Hg1|(u & (fn' & us' & Hmap & Hu) & Hrep)].
  - destruct (Hprov g Hg1) as [?|(u & Hu & Hrep)]; [by left|].
    right. exists u. split; [|done]. exists fn, us. split; [left|done].
  - right. exists u. split; [|done]. exists fn', us'. split; [by right|done].
Qed.

End DispatcherProvenance.

(** Membership in a result of the filter, by the helper lemmas of the
    dict. *)
Lemma elem_of_filter_versions
    (bl : string → string → bool) (cp : string) (vs : list Finding)
    (r : ScanResult) :
  r ∈ filter_versions bl cp vs →
  ∃ f, f ∈ vs ∧ r = result_of cp f ∧ bl cp (f_version f) = false.
Proof.
  unfold filter_versions. intros (v & e & Hm & ->)%elem_of_result_list.
  destruct (filter_loop_lookup_Some bl cp vs ∅ v e Hm)
    as [Hempty|(f & Hf & <- & -> & Hbl)].
  { by rewrite lookup_empty in Hempty. }
  by exists f.
Qed.

(** The parts of a call of the dispatcher that returns. *)
Lemma scan_upstream_urls_returns W cpv (urls : UrlMap) on_progress rs :
  result (scan_upstream_urls W cpv urls on_progress) = Ok rs →
  num_urls urls ≠ 0%Z ∧
  ∃ st cp ver rev,
    result (scan_files W cpv on_progress (70 / num_urls urls) urls
              (mkLoopState [] 70)) = Ok st
    ∧ pkgsplit W cpv = Some (cp, ver, rev)
    ∧ rs = filter_versions (version_blacklisted W) cp (versions st).
Proof.
  intros Hr.
  destruct (decide (num_urls urls = 0%Z)) as [Hz|Hn].
  { unfold scan_upstream_urls, py_div in Hr. by rewrite Hz in Hr. }
  split; [done|].
  rewrite (scan_upstream_urls_unfold W cpv urls on_progress Hn) in Hr.
  rewrite result_bind in Hr.
  destruct (result (scan_files _ _ _ _ _ _)) as [st|e]; [|done].
  unfold unpack_pkgsplit in Hr.
  destruct (pkgsplit W cpv) as [[[cp ver] rev]|]; [|done].
  rewrite ret_bind, result_bind in Hr. unfold when in Hr.
  destruct (_ && _); simpl in Hr; injection Hr as <-; by exists st, cp, ver, rev.
Qed.

(** X9. Every element of a result of the dispatcher is a finding that an
    enabled handler call returned for a URL of the map with a scheme
    separator, tagged with the [cp] that [portage.pkgsplit] gives, and its
    version is not blacklisted. *)
Theorem scan_upstream_urls_results_reported
    W cpv (urls : UrlMap) on_progress rs r :
  result (scan_upstream_urls W cpv urls on_progress) = Ok rs →
  r ∈ rs →
  ∃ cp ver rev url g,
    pkgsplit W cpv = Some (cp, ver, rev)
    ∧ url_of urls url ∧ reported_by W cpv url g
    ∧ r = result_of cp g
    ∧ version_blacklisted W cp (f_version g) = false.
Proof.
  intros Hr Hin.
  destruct (scan_upstream_urls_returns W cpv urls on_progress rs Hr)
    as (_ & st & cp & ver & rev & Hloop & Hsplit & ->).
  apply elem_of_filter_versions in Hin as (g & Hg & -> & Hbl).
  destruct (scan_files_provenance W cpv on_progress _ urls _ st Hloop g Hg)
    as [Hnil|(url & Hurl & Hrep)].
  { by apply elem_of_nil in Hnil. }
  by exists cp, ver, rev, url, g.
Qed.

Lemma scan_upstream_urls_results_reported_witness :
  ∃ cp ver rev url g,
    pkgsplit (Sample.world Sample.scan_finds_a Sample.cfg_default
                [Sample.foo] Sample.two_files) "app-misc/foo-1.0"
    = Some (cp, ver, rev)
    ∧ url_of Sample.two_files url
    ∧ reported_by (Sample.world Sample.scan_finds_a Sample.cfg_default
                     [Sample.foo] Sample.two_files) "app-misc/foo-1.0" url g
    ∧ result_of "app-misc/foo" Sample.found_12 = result_of cp g
    ∧ version_blacklisted
        (Sample.world Sample.scan_finds_a Sample.cfg_default
           [Sample.foo] Sample.two_files) cp (f_version g) = false.
Proof.
  apply (scan_upstream_urls_results_reported
           (Sample.world Sample.scan_finds_a Sample.cfg_default
              [Sample.foo] Sample.two_files)
           "app-misc/foo-1.0" Sample.two_files true
           [result_of "app-misc/foo" Sample.found_12]).
  - vm_compute. reflexivity.
  - left.
Defined.

Section DispatcherFaults.

Variables (W : World) (cpv : string) (on_progress : bool) (inc : Z).

(** Of the calls that the model lets raise, one pass of the loop body
    raises only what brute force raises for its URL. *)
Lemma scan_url_raises url st e :
  result (scan_url W cpv on_progress inc url st) = Raised e →
  (0 < brute_force (CONFIG W))%Z ∧ str_contains "://" url = true
  ∧ handlers_brute_force W cpv url = Raised e.
Proof.
  unfold scan_url. rewrite result_bind.
  assert (∃ avail, result (report_url_progress on_progress inc
                             (progress_available st)) = Ok avail)
    as [avail ->].
  { unfold report_url_progress. destruct (_ && _); by eexists. }
  rewrite result_bind.
  assert (result (when (negb (quiet (CONFIG W)) && negb (format (CONFIG W)))
                    (emit (UPrint ""))) = Ok tt) as ->.
  { by destruct (_ && _). }
  rewrite result_emit_bind.
  destruct (negb (str_contains "://" url)) eqn:Hvalid.
  { by rewrite result_emit_bind, result_ret. }
  apply negb_false_iff in Hvalid. rewrite result_bind.
  destruct (structured_scan_contained W cpv url (versions st))
    as (vs1 & -> & _).
  destruct (stop_now W vs1); [by rewrite result_ret|].
  rewrite result_bind. unfold brute_force_scan.
  destruct (0 <? brute_force (CONFIG W))%Z eqn:Hon.
  2:{ rewrite result_ret. by destruct (stop_now W vs1). }
  apply Z.ltb_lt in Hon. rewrite result_bind. unfold call, result at 2.
  simpl. destruct (handlers_brute_force W cpv url) as [found|e'].
  - by destruct (stop_now W (vs1 ++ found)).
  - by intros [= ->].
Qed.

Lemma scan_file_raises file_urls st e :
  result (scan_file W cpv on_progress inc file_urls st) = Raised e →
  (0 < brute_force (CONFIG W))%Z
  ∧ ∃ url, url ∈ file_urls ∧ str_contains "://" url = true
           ∧ handlers_brute_force W cpv url = Raised e.
Proof.
  revert st. induction file_urls as [|url rest IH]; intros st; [done|].
  rewrite scan_file_unfold, result_bind.
  destruct (result (scan_url W cpv on_progress inc url st))
    as [[b st1]|e'] eqn:Hurl.
  - simpl. destruct b; [done|]. intros Hrest.
    destruct (IH st1 Hrest) as (Hon & u & Hu & Hvalid & Hraise).
    split; [done|]. exists u. split; [by right|done].
  - intros [= ->]. destruct (scan_url_raises url st e Hurl) as (? & ? & ?).
    split; [done|]. exists url. split; [left|done].
Qed.

Lemma scan_files_raises (urls : UrlMap) st e :
  result (scan_files W cpv on_progress inc urls st) = Raised e →
  (0 < brute_force (CONFIG W))%Z
  ∧ ∃ url, url_of urls url ∧ str_contains "://" url = true
           ∧ handlers_brute_force W cpv url = Raised e.
Proof.
  revert st. induction urls as [|[fn us] urls IH]; intros st; [done|].
  simpl. rewrite result_bind.
  destruct (result (scan_file W cpv on_progress inc us st))
    as [st1|e'] eqn:Hfile.
  - intros Hrest.
    destruct (IH st1 Hrest)
      as (Hon & u & (fn' & us' & Hmap & Hu) & Hvalid & Hraise).
    split; [done|]. exists u. split; [|done].
    exists fn', us'. split; [by right|done].
  - intros [= ->].
    destruct (scan_file_raises us st e Hfile) as (Hon & u & Hu & ? & ?).
    split; [done|]. exists u. split; [|done].
    exists fn, us. split; [left|done].
Qed.

End DispatcherFaults.

(** Of the calls that the model lets raise, the ones whose exception leaves
    the dispatcher. *)
Lemma scan_upstream_urls_raises W cpv (urls : UrlMap) on_progress e :
  result (scan_upstream_urls W cpv urls on_progress) = Raised e →
  dispatcher_exception W cpv urls e.
Proof.
  intros Hr. unfold dispatcher_exception.
  destruct (decide (num_urls urls = 0%Z)) as [Hz|Hn].
  { left. unfold scan_upstream_urls, py_div in Hr. rewrite Hz in Hr.
    simpl in Hr. by injection Hr as <-. }
  right.
  rewrite (scan_upstream_urls_unfold W cpv urls on_progress Hn) in Hr.
  rewrite result_bind in Hr.
  destruct (result (scan_files _ _ _ _ _ _)) as [st|e'] eqn:Hloop.
  - left. unfold unpack_pkgsplit in Hr.
    destruct (pkgsplit W cpv) as [parts|]; [|by injection Hr as <-].
    rewrite ret_bind, result_bind in Hr. unfold when in Hr.
    by destruct (_ && _).
  - right. injection Hr as ->. by eapply scan_files_raises.
Qed.

Lemma elem_of_handler_calls (t : list Event) (u : string) :
  u ∈ handler_calls t ↔ ∃ c, CallScan c u ∈ t ∨ CallBruteForce c u ∈ t.
Proof.
  unfold handler_calls. rewrite list_elem_of_omap. split.
  - intros (ev & Hin & Hev).
    destruct ev; try discriminate; injection Hev as ->; eauto.
  - intros (c & [Hin|Hin]); eexists; (split; [exact Hin|done]).
Qed.

Lemma elem_of_increments (t : list Event) (i : Z) :
  i ∈ increments t ↔ Progress i ∈ t.
Proof.
  unfold increments. rewrite list_elem_of_omap. split.
  - intros (ev & Hin & Hev).
    destruct ev; try discriminate. by injection Hev as ->.
  - intros Hin. by exists (Progress i).
Qed.

(** X11. When there is nothing to scan, because structured scanning and
    brute force are both switched off or because no URL of the map has a
    scheme separator, the dispatcher calls no handler and, for a map with
    at least one URL and a [cpv] that splits, returns an empty result. *)
Theorem scan_upstream_urls_nothing_to_scan
    W cpv (urls : UrlMap) on_progress cp ver rev :
  (scan_dir (CONFIG W) = false ∧ (brute_force (CONFIG W) ≤ 0)%Z)
  ∨ (∀ url, url_of urls url → str_contains "://" url = false) →
  num_urls urls ≠ 0%Z →
  pkgsplit W cpv = Some (cp, ver, rev) →
  result (scan_upstream_urls W cpv urls on_progress) = Ok []
  ∧ handler_calls (trace (scan_upstream_urls W cpv urls on_progress)) = [].
Proof.
  intros Hnothing Hn Hsplit. split.
  - destruct (result (scan_upstream_urls W cpv urls on_progress))
      as [rs|e] eqn:Hr.
    + f_equal. apply elem_of_nil_inv. intros r Hin.
      destruct (scan_upstream_urls_returns W cpv urls on_progress rs Hr)
        as (_ & st & cp' & ver' & rev' & Hloop & _ & ->).
      apply elem_of_filter_versions in Hin as (g & Hg & _ & _).
      destruct (scan_files_provenance W cpv on_progress _ urls _ st Hloop g Hg)
        as [Hnil|(url & Hurl & Hvalid & gs & _ & Hcall)].
      { by apply elem_of_nil in Hnil. }
      destruct Hnothing as [[Hdir Hbf]|Hinvalid].
      * destruct Hcall as [[Hon _]|[Hon _]]; [congruence|lia].
      * rewrite (Hinvalid url Hurl) in Hvalid. discriminate.
    + exfalso.
      destruct (scan_upstream_urls_raises W cpv urls on_progress e Hr)
        as [[_ Hz]|[[_ Hnone]|(Hon & url & Hurl & Hvalid & _)]].
      * done.
      * congruence.
      * destruct Hnothing as [[_ Hbf]|Hinvalid]; [lia|].
        rewrite (Hinvalid url Hurl) in Hvalid. discriminate.
  - apply elem_of_nil_inv. intros u (c & Hcall)%elem_of_handler_calls.
    assert (str_contains "://" u = true ∧ url_of urls u
            ∧ (CallScan c u ∈ trace (scan_upstream_urls W cpv urls on_progress)
               → scan_dir (CONFIG W) = true)
            ∧ (CallBruteForce c u
                 ∈ trace (scan_upstream_urls W cpv urls on_progress)
               → (0 < brute_force (CONFIG W))%Z))
      as (Hvalid & Hurl & Hscan & Hbrute).
    { destruct Hcall as [Hin|Hin];
        pose proof Hin as Hin';
        apply scan_upstream_urls_events in Hin'
          as [(url & Hurl & Hev)|(a & Ha & _)];
        try discriminate; simpl in Hev;
        destruct Hev as (_ & -> & Hon & Hvalid);
        (split; [done|]); (split; [done|]); split; intros Hx; try done.
      - apply scan_upstream_urls_events in Hx
          as [(url' & _ & Hev)|(a & Ha & _)]; [|discriminate].
        simpl in Hev. tauto.
      - apply scan_upstream_urls_events in Hx
          as [(url' & _ & Hev)|(a & Ha & _)]; [|discriminate].
        simpl in Hev. tauto. }
    destruct Hnothing as [[Hdir Hbf]|Hinvalid].
    + destruct Hcall as [Hin|Hin].
      * specialize (Hscan Hin). congruence.
      * specialize (Hbrute Hin). lia.
    + rewrite (Hinvalid u Hurl) in Hvalid. discriminate.
Qed.

Lemma scan_upstream_urls_nothing_to_scan_witness :
  result (scan_upstream_urls
            (Sample.world Sample.scan_finds_a Sample.cfg_default
               [Sample.foo] [("foo-1.0.tar.gz", ["foo-1.0.tar.gz"])])
            "app-misc/foo-1.0" [("foo-1.0.tar.gz", ["foo-1.0.tar.gz"])] true)
  = Ok []
  ∧ handler_calls
      (trace (scan_upstream_urls
                (Sample.world Sample.scan_finds_a Sample.cfg_default
                   [Sample.foo] [("foo-1.0.tar.gz", ["foo-1.0.tar.gz"])])
                "app-misc/foo-1.0" [("foo-1.0.tar.gz", ["foo-1.0.tar.gz"])]
                true))
    = [].
Proof.
  apply (scan_upstream_urls_nothing_to_scan
           (Sample.world Sample.scan_finds_a Sample.cfg_default
              [Sample.foo] [("foo-1.0.tar.gz", ["foo-1.0.tar.gz"])])
           "app-misc/foo-1.0" [("foo-1.0.tar.gz", ["foo-1.0.tar.gz"])] true
           "app-misc/foo" "1.0" "r0").
  - right. intros url (fn & us & Hmap & Hu).
    apply list_elem_of_singleton in Hmap. injection Hmap as -> ->.
    apply list_elem_of_singleton in Hu. subst url. reflexivity.
  - discriminate.
  - reflexivity.
Defined.

(** X12. A [cpv] that [portage.pkgsplit] cannot split makes the dispatcher
    raise [TypeError], and only after the whole loop has run: every handler
    call has been made by then, the findings are lost and the rest of the
    progress budget is not flushed. *)
Theorem scan_upstream_urls_unsplittable
    W cpv (urls : UrlMap) on_progress :
  num_urls urls ≠ 0%Z →
  brute_force_returns W cpv →
  pkgsplit W cpv = None →
  result (scan_upstream_urls W cpv urls on_progress) = Raised TypeError
  ∧ trace (scan_upstream_urls W cpv urls on_progress)
    = trace (scan_files W cpv on_progress (70 / num_urls urls) urls
               (mkLoopState [] 70)).
Proof.
  intros Hn Hbf Hsplit.
  rewrite (scan_upstream_urls_unfold W cpv urls on_progress Hn).
  rewrite result_bind, trace_bind.
  destruct (scan_files_contained W cpv on_progress (70 / num_urls urls) Hbf
              urls (mkLoopState [] 70)) as (st & -> & _).
  unfold unpack_pkgsplit. rewrite Hsplit. simpl.
  by rewrite app_nil_r.
Qed.

Lemma scan_upstream_urls_unsplittable_witness :
  result (scan_upstream_urls Sample2.world_malformed "foo" Sample.two_files
            true)
  = Raised TypeError
  ∧ trace (scan_upstream_urls Sample2.world_malformed "foo" Sample.two_files
             true)
    = trace (scan_files Sample2.world_malformed "foo" true
               (70 / num_urls Sample.two_files) Sample.two_files
               (mkLoopState [] 70)).
Proof.
  apply (scan_upstream_urls_unsplittable Sample2.world_malformed "foo"
           Sample.two_files true).
  - discriminate.
  - intros Hon. simpl in Hon. lia.
  - reflexivity.
Defined.

Lemma scan_files_unfold W cpv on_progress inc fn file_urls (urls : UrlMap) st :
  scan_files W cpv on_progress inc ((fn, file_urls) :: urls) st
  = scan_file W cpv on_progress inc file_urls st ≫= λ st',
      scan_files W cpv on_progress inc urls st'.
Proof. reflexivity. Qed.

(** One pass of the loop body in which brute force raises. *)
Lemma scan_url_brute_force_raises W cpv on_progress inc url st e :
  str_contains "://" url = true →
  (0 < brute_force (CONFIG W))%Z →
  oneshot (CONFIG W) = false →
  handlers_brute_force W cpv url = Raised e →
  result (scan_url W cpv on_progress inc url st) = Raised e
  ∧ last (trace (scan_url W cpv on_progress inc url st))
    = Some (CallBruteForce cpv url).
Proof.
  intros Hvalid Hon Hone Hraise. apply Z.ltb_lt in Hon.
  unfold scan_url, report_url_progress, structured_scan, brute_force_scan,
    when, call, try_except, emit, stop_now, trace, result,
    mbind, M_bind, mret, M_ret.
  rewrite Hvalid, Hon, Hone, Hraise, ?andb_false_r. simpl.
  run_cases;
    try match goal with
        | H : _ && false = true |- _ =>
            rewrite andb_false_r in H; discriminate
        end;
    done.
Qed.

(** X13. What brute force raises is not caught: with brute force enabled
    and oneshot off, an exception that brute force raises for the first URL
    of the map, a URL with a scheme separator, ends the dispatcher with that
    exception, and the brute-force call is the last thing it did. *)
Theorem brute_force_fault_aborts
    W cpv on_progress fn url rest (more : UrlMap) e :
  str_contains "://" url = true →
  (0 < brute_force (CONFIG W))%Z →
  oneshot (CONFIG W) = false →
  handlers_brute_force W cpv url = Raised e →
  result (scan_upstream_urls W cpv ((fn, url :: rest) :: more) on_progress)
  = Raised e
  ∧ last (trace (scan_upstream_urls W cpv ((fn, url :: rest) :: more)
                   on_progress))
    = Some (CallBruteForce cpv url).
Proof.
  intros Hvalid Hon Hone Hraise.
  assert (num_urls ((fn, url :: rest) :: more) ≠ 0%Z) as Hn.
  { rewrite num_urls_cons. pose proof (num_urls_nonneg more).
    simpl List.length. lia. }
  rewrite (scan_upstream_urls_unfold W cpv _ on_progress Hn).
  set (inc := (70 / num_urls ((fn, url :: rest) :: more))%Z).
  destruct (scan_url_brute_force_raises W cpv on_progress inc url
              (mkLoopState [] 70) e Hvalid Hon Hone Hraise) as [Hr Hlast].
  rewrite result_bind, trace_bind, scan_files_unfold.
  rewrite result_bind, trace_bind, scan_file_unfold, result_bind, trace_bind.
  rewrite Hr. simpl. by rewrite !app_nil_r.
Qed.

Lemma brute_force_fault_aborts_witness :
  result (scan_upstream_urls Sample2.world_brute_force_fails
            "app-misc/foo-1.0"
            (("foo-1.0.tar.gz", Sample.url_a :: [])
               :: [("foo-doc-1.0.tar.gz", [Sample.url_b])]) true)
  = Raised Sample.timed_out
  ∧ last (trace (scan_upstream_urls Sample2.world_brute_force_fails
                   "app-misc/foo-1.0"
                   (("foo-1.0.tar.gz", Sample.url_a :: [])
                      :: [("foo-doc-1.0.tar.gz", [Sample.url_b])]) true))
    = Some (CallBruteForce "app-misc/foo-1.0" Sample.url_a).
Proof.
  apply (brute_force_fault_aborts Sample2.world_brute_force_fails
           "app-misc/foo-1.0" true "foo-1.0.tar.gz" Sample.url_a []
           [("foo-doc-1.0.tar.gz", [Sample.url_b])] Sample.timed_out).
  - reflexivity.
  - simpl. lia.
  - reflexivity.
  - reflexivity.
Defined.

(** X14. With oneshot set, once the structured scan of a URL has returned a
    finding, brute force is skipped for that URL and the remaining URLs of
    the same file are not scanned: the loop over this file ends with the
    findings so far. *)
Theorem oneshot_skips_rest_of_file
    W cpv on_progress inc url rest st f fs :
  oneshot (CONFIG W) = true →
  scan_dir (CONFIG W) = true →
  str_contains "://" url = true →
  handlers_scan W cpv url = Ok (f :: fs) →
  handler_calls (trace (scan_file W cpv on_progress inc (url :: rest) st))
  = [url]
  ∧ ∃ st', result (scan_file W cpv on_progress inc (url :: rest) st) = Ok st'
           ∧ versions st' = versions st ++ f :: fs.
Proof.
  intros Hone Hdir Hvalid Hscan.
  assert (∃ avail,
            result (scan_url W cpv on_progress inc url st)
            = Ok (true, mkLoopState (versions st ++ f :: fs) avail)
            ∧ handler_calls (trace (scan_url W cpv on_progress inc url st))
              = [url]) as (avail & Hr & Hcalls).
  { unfold scan_url, report_url_progress, structured_scan, brute_force_scan,
      when, call, try_except, emit, stop_now, trace, result,
      mbind, M_bind, mret, M_ret.
    rewrite Hone, Hdir, Hvalid, Hscan. simpl.
    assert (bool_decide (versions st ++ f :: fs = []) = false) as ->.
    { apply bool_decide_eq_false_2. by destruct (versions st). }
    simpl. run_cases; by eexists. }
  rewrite scan_file_unfold, trace_bind, result_bind, Hr. simpl.
  rewrite app_nil_r. split; [done|]. by eexists.
Qed.

Lemma oneshot_skips_rest_of_file_witness :
  handler_calls
    (trace (scan_file
              (Sample.world Sample.scan_finds_a Sample.cfg_oneshot
                 [Sample.foo] Sample.two_files)
              "app-misc/foo-1.0" true 35 (Sample.url_a :: [Sample.url_b])
              (mkLoopState [] 70)))
  = [Sample.url_a]
  ∧ ∃ st',
      result (scan_file
                (Sample.world Sample.scan_finds_a Sample.cfg_oneshot
                   [Sample.foo] Sample.two_files)
                "app-misc/foo-1.0" true 35 (Sample.url_a :: [Sample.url_b])
                (mkLoopState [] 70)) = Ok st'
      ∧ versions st'
        = versions (mkLoopState [] 70) ++ Sample.found_12 :: [].
Proof.
  apply (oneshot_skips_rest_of_file
           (Sample.world Sample.scan_finds_a Sample.cfg_oneshot
              [Sample.foo] Sample.two_files)
           "app-misc/foo-1.0" true 35 Sample.url_a [Sample.url_b]
           (mkLoopState [] 70) Sample.found_12 []); reflexivity.
Defined.

(** ** The progress budget, for every run *)

Section Budget.

Variables (W : World) (cpv : string) (on_progress : bool) (inc : Z).

(** What the loop over one file hands out, however it ends: never more
    than the budget holds beyond the increments of the URLs still to come
    after this file. *)
Lemma scan_file_spent file_urls st k :
  (0 ≤ inc)%Z →
  (Z.of_nat (List.length file_urls) ≤ k)%Z →
  (inc * k ≤ progress_available st)%Z →
  (0 ≤ total_progress (trace (scan_file W cpv on_progress inc file_urls st)))%Z
  ∧ (total_progress (trace (scan_file W cpv on_progress inc file_urls st))
     + inc * (k - Z.of_nat (List.length file_urls))
     ≤ progress_available st)%Z
  ∧ ∀ st', result (scan_file W cpv on_progress inc file_urls st) = Ok st' →
      progress_available st'
      = (progress_available st
         - total_progress
             (trace (scan_file W cpv on_progress inc file_urls st)))%Z.
Proof.
  intros Hinc. revert st k.
  induction file_urls as [|url rest IH]; intros st k Hk Hav.
  { simpl. rewrite total_progress_nil. repeat split; try lia.
    intros st' [= <-]. lia. }
  rewrite scan_file_unfold, trace_bind, result_bind, total_progress_app.
  destruct (scan_url_progress W cpv inc on_progress url st) as [Ht Hst].
  rewrite Ht. clear Ht.
  set (spent := (if on_progress && (0 <? progress_available st)%Z
                 then inc else 0)%Z) in *.
  assert (0 ≤ spent ≤ inc)%Z as Hspent.
  { unfold spent. destruct (_ && _); lia. }
  simpl List.length in *. rewrite Nat2Z.inj_succ in *.
  destruct (result (scan_url W cpv on_progress inc url st))
    as [[broke st1]|e] eqn:Hurl.
  - specialize (Hst _ _ eq_refl).
    assert (progress_available st1 = progress_available st - spent)%Z
      as Hst1.
    { rewrite Hst. unfold spent. destruct (_ && _); lia. }
    simpl. destruct broke.
    + rewrite trace_ret, result_ret, total_progress_nil.
      repeat split; try nia. intros st' [= <-]. lia.
    + destruct (IH st1 (k - 1)%Z) as (Hpos & Hfit & Hleft); [lia|nia|].
      repeat split; try nia.
      intros st' Hres. rewrite (Hleft st' Hres). lia.
  - rewrite total_progress_nil. repeat split; try nia. intros st'. done.
Qed.

Lemma scan_files_spent (urls : UrlMap) st :
  (0 ≤ inc)%Z →
  (inc * num_urls urls ≤ progress_available st)%Z →
  (0 ≤ total_progress (trace (scan_files W cpv on_progress inc urls st))
   ≤ progress_available st)%Z
  ∧ ∀ st', result (scan_files W cpv on_progress inc urls st) = Ok st' →
      progress_available st'
      = (progress_available st
         - total_progress
             (trace (scan_files W cpv on_progress inc urls st)))%Z.
Proof.
  intros Hinc. revert st.
  induction urls as [|[fn us] urls IH]; intros st Hav.
  { replace (num_urls []) with 0%Z in Hav by done. simpl.
    rewrite total_progress_nil. split; [lia|]. intros st' [= <-]. lia. }
  rewrite num_urls_cons in Hav. pose proof (num_urls_nonneg urls) as Hn.
  rewrite scan_files_unfold, trace_bind, result_bind, total_progress_app.
  destruct (scan_file_spent us st
              (Z.of_nat (List.length us) + num_urls urls)%Z Hinc)
    as (Hpos & Hfit & Hleft); [lia|lia|].
  destruct (result (scan_file W cpv on_progress inc us st)) as [st1|e].
  - specialize (Hleft st1 eq_refl).
    destruct (IH st1) as ([Hpos' Hfit'] & Hleft'); [nia|].
    split; [lia|]. intros st' Hres. rewrite (Hleft' st' Hres). lia.
  - rewrite total_progress_nil. split; [nia|]. done.
Qed.

End Budget.

(** The progress of a prefix of a run whose increments are not negative. *)
Lemma prefix_total_progress (t' t : list Event) :
  Forall (λ i, 0 ≤ i)%Z (increments t) → t' `prefix_of` t →
  (0 ≤ total_progress t' ≤ total_progress t)%Z.
Proof.
  intros Hpos [k ->]. rewrite increments_app in Hpos.
  apply Forall_app in Hpos as [Hpos' Hposk].
  rewrite total_progress_app.
  assert (∀ l, Forall (λ i, 0 ≤ i)%Z l → 0 ≤ foldr Z.add 0 l)%Z as Hsum.
  { induction 1; simpl; lia. }
  pose proof (Hsum _ Hpos'). pose proof (Hsum _ Hposk).
  unfold total_progress. lia.
Qed.

(** The increments of the dispatcher are not negative, and their sum is at
    most 70 however the call ends. *)
Lemma scan_upstream_urls_spent W cpv (urls : UrlMap) on_progress :
  Forall (λ i, 0 ≤ i)%Z
    (increments (trace (scan_upstream_urls W cpv urls on_progress)))
  ∧ (total_progress (trace (scan_upstream_urls W cpv urls on_progress))
     ≤ 70)%Z.
Proof.
  pose proof (num_urls_nonneg urls) as Hnn. split.
  - apply Forall_forall. intros i Hin%elem_of_increments.
    apply scan_upstream_urls_events in Hin
      as [(url & _ & Hev)|(a & [= ->] & _ & Ha)]; [|lia].
    simpl in Hev. destruct Hev as [_ ->].
    destruct (decide (num_urls urls = 0%Z)) as [->|Hn]; [done|].
    apply Z.div_pos; lia.
  - destruct (decide (num_urls urls = 0%Z)) as [Hz|Hn].
    { unfold scan_upstream_urls, py_div. by rewrite Hz. }
    rewrite (scan_upstream_urls_unfold W cpv urls on_progress Hn).
    rewrite trace_bind, total_progress_app.
    destruct (scan_files_spent W cpv on_progress (70 / num_urls urls) urls
                (mkLoopState [] 70)) as ([Hpos Hfit] & Hleft).
    { apply Z.div_pos; lia. }
    { rewrite Z.mul_comm. apply Z.mul_div_le. lia. }
    simpl in Hfit.
    destruct (result (scan_files _ _ _ _ _ _)) as [st|e];
      [|rewrite total_progress_nil; lia].
    specialize (Hleft st eq_refl). simpl in Hleft.
    unfold unpack_pkgsplit.
    destruct (pkgsplit W cpv) as [parts|];
      [|simpl; rewrite total_progress_nil; lia].
    rewrite ret_bind, trace_bind, total_progress_app. unfold when.
    destruct (_ && _); simpl; rewrite ?total_progress_cons,
      ?total_progress_nil; lia.
Qed.

(** X15. With a callback, a call of the dispatcher that returns has handed
    out exactly 70, whatever the number of URLs, however many of them were
    skipped as invalid or left out by oneshot: what the loop did not report
    is flushed at the end. *)
Theorem scan_upstream_urls_hands_out_70 W cpv (urls : UrlMap) rs :
  result (scan_upstream_urls W cpv urls true) = Ok rs →
  total_progress (trace (scan_upstream_urls W cpv urls true)) = 70%Z.
Proof. apply scan_upstream_urls_progress. Qed.

Lemma scan_upstream_urls_hands_out_70_witness :
  total_progress
    (trace (scan_upstream_urls
              (Sample.world Sample.scan_finds_a Sample.cfg_oneshot
                 [Sample.foo] Sample.two_files)
              "app-misc/foo-1.0"
              [("a", [Sample.url_a; Sample.url_b; "no-scheme"])] true))
  = 70%Z.
Proof.
  apply (scan_upstream_urls_hands_out_70
           (Sample.world Sample.scan_finds_a Sample.cfg_oneshot
              [Sample.foo] Sample.two_files)
           "app-misc/foo-1.0"
           [("a", [Sample.url_a; Sample.url_b; "no-scheme"])]
           [result_of "app-misc/foo" Sample.found_12]).
  vm_compute. reflexivity.
Defined.

(** X16. At every moment of a call of the dispatcher, with or without a
    callback, returning or raising, the progress reported so far lies
    between 0 and 70: no increment is negative and the budget is never
    overdrawn. *)
Theorem scan_upstream_urls_within_budget
    W cpv (urls : UrlMap) on_progress t' :
  t' `prefix_of` trace (scan_upstream_urls W cpv urls on_progress) →
  (0 ≤ total_progress t' ≤ 70)%Z.
Proof.
  intros Hpre.
  destruct (scan_upstream_urls_spent W cpv urls on_progress) as [Hpos Hfit].
  pose proof (prefix_total_progress _ _ Hpos Hpre). lia.
Qed.

Lemma scan_upstream_urls_within_budget_witness :
  (0 ≤ total_progress [Progress 35; EInfo "SRC_URI is 'http://a/foo-1.0.tar.gz'"]
   ≤ 70)%Z.
Proof.
  apply (scan_upstream_urls_within_budget
           (Sample.world Sample.scan_finds_a Sample.cfg_default
              [Sample.foo] Sample.two_files)
           "app-misc/foo-1.0" Sample.two_files true
           [Progress 35; EInfo "SRC_URI is 'http://a/foo-1.0.tar.gz'"]).
  exists [CallScan "app-misc/foo-1.0" "http://a/foo-1.0.tar.gz";
          Progress 35; EInfo "SRC_URI is 'http://b/foo-1.0.tar.gz'";
          CallScan "app-misc/foo-1.0" "http://b/foo-1.0.tar.gz"].
  vm_compute. reflexivity.
Defined.

(** ** More on the scan orchestrator *)

Lemma insert_sorted_elem {A : Type} (lt : A → A → bool) (x y : A)
    (l : list A) :
  y ∈ insert_sorted lt x l ↔ y = x ∨ y ∈ l.
Proof.
  induction l as [|z l IH]; simpl.
  - rewrite list_elem_of_singleton, elem_of_nil. tauto.
  - destruct (lt x z); rewrite !elem_of_cons; [done|].
    rewrite IH. tauto.
Qed.

(** Sorting keeps the elements. *)
Lemma sorted_elem {A : Type} (lt : A → A → bool) (y : A) (l : list A) :
  y ∈ sorted lt l ↔ y ∈ l.
Proof.
  unfold sorted.
  assert (∀ acc, y ∈ foldl (λ acc x, insert_sorted lt x acc) acc l
                 ↔ y ∈ acc ∨ y ∈ l) as Hgen.
  { induction l as [|x l IH]; intros acc; simpl.
    - rewrite elem_of_nil. tauto.
    - rewrite IH, insert_sorted_elem, elem_of_cons. tauto. }
  rewrite Hgen, elem_of_nil. tauto.
Qed.

(** The package that the loop over the development versions leaves: the
    first of the stack that is not a development version, or the last of
    the stack when all are. *)
Lemma dev_loop_split (last : Package) (stack : list Package) :
  ∃ pre post,
    last :: stack = pre ++ dev_loop last stack :: post
    ∧ Forall (λ p, is_dev p = true) pre
    ∧ (is_dev (dev_loop last stack) = true → post = []).
Proof.
  revert last. induction stack as [|next stack IH]; intros last; simpl.
  - exists [], []. unfold is_dev.
    destruct (str_contains "9999" (pkg_version last)); by repeat split.
  - destruct (str_contains "9999" (pkg_version last)) eqn:Hdev.
    + destruct (IH next) as (pre & post & Heq & Hpre & Hpost).
      exists (last :: pre), post. rewrite Heq at 1.
      split; [done|]. split; [by constructor|done].
    + exists [], (next :: stack). unfold is_dev.
      split; [done|]. split; [constructor|]. congruence.
Qed.

(** X17. The loop over the development versions settles on the first
    package of the stack (the matches from the highest down) that does not
    carry the marker 9999; it settles on a development version only when it
    has reached the bottom of the stack, that is when every package of the
    stack carries the marker. *)
Theorem dev_loop_selects (last : Package) (stack : list Package) :
  ∃ pre post,
    last :: stack = pre ++ dev_loop last stack :: post
    ∧ Forall (λ p, is_dev p = true) pre
    ∧ (is_dev (dev_loop last stack) = true → post = []).
Proof. apply dev_loop_split. Qed.

(** X18. The package that [scan_upstream] settles on is one of the matches
    of the query, and it is a development version only if every match is
    one. *)
Theorem resolved_is_a_match W query matches pkg :
  result (find_matches W query) = Ok matches →
  resolved W query = Some pkg →
  pkg ∈ matches
  ∧ (is_dev pkg = true → ∀ p, p ∈ matches → is_dev p = true).
Proof.
  unfold resolved. intros -> Hres.
  destruct (reverse (sorted (Package_lt W) matches)) as [|last stack] eqn:Hrev;
    [done|].
  injection Hres as <-.
  destruct (dev_loop_split last stack) as (pre & post & Heq & Hpre & Hpost).
  assert (∀ p, p ∈ matches ↔ p ∈ last :: stack) as Hsame.
  { intros p. by rewrite <- Hrev, elem_of_reverse, sorted_elem. }
  split.
  - apply Hsame. rewrite Heq. apply elem_of_app. right. left.
  - intros Hdev p Hp%Hsame. rewrite Heq, (Hpost Hdev) in Hp.
    apply elem_of_app in Hp as [Hp|Hp].
    + by apply (proj1 (Forall_forall _ _) Hpre).
    + apply list_elem_of_singleton in Hp. by subst p.
Qed.

Lemma resolved_is_a_match_witness :
  Sample.foo ∈ [Sample.foo_live; Sample.foo; Sample2.foo_09]
  ∧ (is_dev Sample.foo = true →
     ∀ p, p ∈ [Sample.foo_live; Sample.foo; Sample2.foo_09] →
          is_dev p = true).
Proof.
  apply (resolved_is_a_match
           (Sample.world Sample.scan_finds_a Sample.cfg_default
              [Sample.foo_live; Sample.foo; Sample2.foo_09] Sample.one_url)
           "foo" [Sample.foo_live; Sample.foo; Sample2.foo_09] Sample.foo).
  - reflexivity.
  - vm_compute. reflexivity.
Defined.

Section Pieces.

Variable W : World.

Lemma silent_nil : silent W [].
Proof. by repeat split. Qed.

Lemma silent_app t1 t2 : silent W t1 → silent W t2 → silent W (t1 ++ t2).
Proof.
  intros (Hi1 & Hc1 & Ho1 & Hp1) (Hi2 & Hc2 & Ho2 & Hp2).
  unfold silent.
  rewrite increments_app, handler_calls_app, results_output_app, Hi1, Hi2,
    Hc1, Hc2, Ho1, Ho2.
  repeat split. intros Hq. by rewrite prints_app, Hp1, Hp2.
Qed.

Lemma find_matches_silent query : silent W (trace (find_matches W query)).
Proof.
  unfold find_matches.
  destruct (endswith query ".ebuild"); [|apply silent_nil].
  destruct (package_from_ebuild W query) as [cpv|]; [|apply silent_nil].
  destruct (truthy (Some cpv)); [|apply silent_nil]. by repeat split.
Qed.

Lemma describe_silent pkg : silent W (trace (describe W pkg)).
Proof.
  unfold silent, describe, when, emit, trace, mbind, M_bind, mret, M_ret.
  run_cases; repeat split; try done; intros [Hq|Hf]; read_tests; congruence.
Qed.

Lemma parse_uri_maps_silent pkg : silent W (trace (parse_uri_maps W pkg)).
Proof.
  unfold parse_uri_maps, try_except, lift, emit, trace,
    mbind, M_bind, mret, M_ret.
  destruct (parse_uri_map W _ _ (Some _)) as [alist|e]; simpl;
    [|by repeat split].
  destruct (parse_uri_map W _ _ None) as [aalist|e]; simpl; by repeat split.
Qed.

(** What the end of [scan_upstream] leaves: the last increment, and every
    element of the result handed to [output.result] once, in order. *)
Lemma report_trace on_progress rs :
  increments (trace (report W on_progress rs))
  = (if on_progress then [10%Z] else [])
  ∧ handler_calls (trace (report W on_progress rs)) = []
  ∧ results_output (trace (report W on_progress rs)) = rs
  ∧ (quiet (CONFIG W) = true ∨ format (CONFIG W) = true →
     prints (trace (report W on_progress rs)) = []).
Proof.
  assert (increments (trace (output_results rs)) = []
          ∧ handler_calls (trace (output_results rs)) = []
          ∧ results_output (trace (output_results rs)) = rs
          ∧ prints (trace (output_results rs)) = [])
    as (Hi & Hc & Ho & Hp).
  { unfold output_results, trace. simpl.
    induction rs as [|[[[[cp url] v] h] c] rs (IH1 & IH2 & IH3 & IH4)];
      [done|].
    rewrite fmap_cons. repeat split; try done.
    change (results_output (OutResult cp v url h c
                            :: ((λ r : ScanResult,
                                   let '(cp, url, version, handler, confidence)
                                     := r in
                                   OutResult cp version url handler confidence)
                                  <$> rs))
            = (cp, url, v, h, c) :: rs).
    unfold results_output in *. simpl. by f_equal. }
  unfold report. rewrite trace_bind.
  assert (result (when on_progress (emit (Progress 10))) = Ok tt) as ->
    by (by destruct on_progress).
  rewrite increments_app, handler_calls_app, results_output_app, prints_app.
  destruct rs as [|r rs].
  { destruct on_progress; by repeat split. }
  replace (0 <? List.length (r :: rs))%nat with true by done.
  rewrite when_true, trace_bind.
  assert (result (when (negb (format (CONFIG W) || quiet (CONFIG W)))
                    (emit (PrintStderr newline))) = Ok tt) as ->
    by (by destruct (negb _)).
  rewrite increments_app, handler_calls_app, results_output_app, Hi, Hc, Ho.
  destruct (format (CONFIG W)) eqn:Hf, (quiet (CONFIG W)) eqn:Hq,
    on_progress; simpl; repeat split; try done;
    try (intros _; by rewrite prints_app, Hp);
    intros [?|?]; congruence.
Qed.

End Pieces.

Lemma elem_of_results_output (t : list Event) (r : ScanResult) :
  r ∈ results_output t →
  ∃ cp version url handler confidence,
    OutResult cp version url handler confidence ∈ t.
Proof.
  unfold results_output. rewrite list_elem_of_omap.
  intros (ev & Hin & Hev). destruct ev; try discriminate. eauto 6.
Qed.

(** The dispatcher hands nothing to [output.result], prints nothing when
    [quiet] or [format] is set, and reports nothing without a callback. *)
Lemma scan_upstream_urls_quiet W cpv (urls : UrlMap) on_progress :
  results_output (trace (scan_upstream_urls W cpv urls on_progress)) = []
  ∧ (quiet (CONFIG W) = true ∨ format (CONFIG W) = true →
     prints (trace (scan_upstream_urls W cpv urls on_progress)) = [])
  ∧ (on_progress = false →
     increments (trace (scan_upstream_urls W cpv urls on_progress)) = []).
Proof.
  repeat split.
  - apply elem_of_nil_inv.
    intros r (cp & v & u & h & c & Hin)%elem_of_results_output.
    apply scan_upstream_urls_events in Hin
      as [(url & _ & Hev)|(a & Ha & _)]; [done|discriminate].
  - intros Hq. apply elem_of_nil_inv. intros ev Hin.
    apply list_elem_of_filter in Hin as [Hprint Hin].
    apply scan_upstream_urls_events in Hin
      as [(url & _ & Hev)|(a & -> & _)]; [|discriminate].
    destruct ev; try discriminate. simpl in Hev.
    + destruct Hev, Hq; congruence.
    + done.
  - intros ->. apply elem_of_nil_inv. intros i Hin%elem_of_increments.
    apply scan_upstream_urls_events in Hin
      as [(url & _ & Hev)|(a & _ & Hop & _)]; [|discriminate].
    simpl in Hev. by destruct Hev.
Qed.

(** The ways a call of [scan_upstream] goes: it stops before a package is
    known; or it stops on the package, blacklisted or with a source
    declaration that cannot be read; or it runs the dispatcher on one of the
    two maps and reports. *)
Lemma scan_upstream_cases W query on_progress :
  (silent W (trace (scan_upstream W query on_progress))
   ∧ result (scan_upstream W query on_progress) = Ok None)
  ∨ ∃ pkg t1 t2,
      resolved W query = Some pkg ∧ silent W t1 ∧ silent W t2 ∧
      ((trace (scan_upstream W query on_progress)
        = t1 ++ (if on_progress then [Progress 10] else []) ++ t2
        ∧ result (scan_upstream W query on_progress) = Ok None)
       ∨ ∃ urls : UrlMap,
           (parse_uri_map W (pkg_cpv pkg)
              (settings_EAPI W, pkg_environment pkg "SRC_URI" false)
              (Some (settings_PORTAGE_USE W)) = Ok urls
            ∨ parse_uri_map W (pkg_cpv pkg)
                (settings_EAPI W, pkg_environment pkg "SRC_URI" false)
                None = Ok urls)
           ∧ trace (scan_upstream W query on_progress)
             = t1 ++ (if on_progress then [Progress 10] else []) ++ t2
               ++ trace (scan_upstream_urls W (pkg_cpv pkg) urls on_progress)
               ++ match result (scan_upstream_urls W (pkg_cpv pkg) urls
                                  on_progress) with
                  | Ok rs => trace (report W on_progress rs)
                  | Raised _ => []
                  end
           ∧ result (scan_upstream W query on_progress)
             = match result (scan_upstream_urls W (pkg_cpv pkg) urls
                               on_progress) with
               | Ok rs => Ok (Some rs)
               | Raised e => Raised e
               end).
Proof.
  pose proof (find_matches_silent W query) as Hsilent0.
  unfold scan_upstream, resolved. rewrite trace_bind, result_bind.
  destruct (find_matches_returns W query) as (ms & Hms & _). rewrite Hms.
  destruct (bool_decide (ms = [])) eqn:Hempty.
  { left. autorewrite with run. split; [|done].
    apply silent_app; [done|by repeat split]. }
  apply bool_decide_eq_false in Hempty.
  destruct (reverse (sorted (Package_lt W) ms)) as [|last stack] eqn:Hrev.
  { exfalso. destruct ms as [|p ms]; [done|].
    assert (p ∈ reverse (sorted (Package_lt W) (p :: ms))) as Hin.
    { rewrite elem_of_reverse, sorted_elem. left. }
    rewrite Hrev in Hin. by apply elem_of_nil in Hin. }
  set (pkg := dev_loop last stack).
  destruct (negb (Package_nonzero W pkg)).
  { left. autorewrite with run. split; [|done].
    apply silent_app; [done|by repeat split]. }
  right. exists pkg.
  exists (trace (find_matches W query)
          ++ [Metadata "datetime" (start_time_isoformat W) false;
              Metadata "cp" (pkg_cp pkg) false;
              Metadata "cpv" (pkg_cpv pkg) false]).
  unfold scan_package. autorewrite with run.
  assert (∀ B (k : unit → M B),
            trace (when on_progress (emit (Progress 10)) ≫= k)
            = (if on_progress then [Progress 10] else []) ++ trace (k tt)
            ∧ result (when on_progress (emit (Progress 10)) ≫= k)
              = result (k tt)) as Hwhen.
  { intros B k. rewrite trace_bind, result_bind. by destruct on_progress. }
  destruct (Hwhen _ (λ _, if bool_decide (pkg_cp pkg ∈ BLACKLIST_PACKAGES W)
       then emit (EWarn ("Package '" +:+ pkg_cp pkg +:+ "' is blacklisted"));;
            mret None
       else describe W pkg;;
            maps ← parse_uri_maps W pkg;
            match maps with
            | None => mret None
            | Some (alist, aalist) =>
                emit (Metadata "scan_time" (scan_time W) false);;
                result ← scan_upstream_urls W (pkg_cpv pkg)
                           (if bool_decide ("mirror" ∈ settings_features W)
                            then aalist else alist) on_progress;
                report W on_progress result;;
                mret (Some result)
            end)) as [-> ->].
  clear Hwhen.
  assert (silent W (trace (find_matches W query)
                    ++ [Metadata "datetime" (start_time_isoformat W) false;
                        Metadata "cp" (pkg_cp pkg) false;
                        Metadata "cpv" (pkg_cpv pkg) false])) as Hsilent1.
  { apply silent_app; [done|by repeat split]. }
  destruct (bool_decide (pkg_cp pkg ∈ BLACKLIST_PACKAGES W)).
  { eexists. split; [done|]. split; [done|]. split; [|left].
    2:{ autorewrite with run. split; [|done].
        rewrite <- !app_assoc. simpl. reflexivity. }
    by repeat split. }
  rewrite trace_bind, result_bind.
  destruct (describe_returns W pkg) as (Hd & _). rewrite Hd.
  rewrite trace_bind, result_bind.
  destruct (parse_uri_maps_returns W pkg) as (maps & Hp & _). rewrite Hp.
  pose proof (describe_silent W pkg) as Hsd.
  pose proof (parse_uri_maps_silent W pkg) as Hsp.
  destruct maps as [[alist aalist]|].
  2:{ exists (trace (describe W pkg) ++ trace (parse_uri_maps W pkg)).
      split; [done|]. split; [done|]. split; [by apply silent_app|]. left.
      autorewrite with run. split; [|done].
      rewrite <- !app_assoc. simpl. by rewrite app_nil_r. }
  exists (trace (describe W pkg) ++ trace (parse_uri_maps W pkg)
          ++ [Metadata "scan_time" (scan_time W) false]).
  split; [done|]. split; [done|]. split.
  { apply silent_app; [done|]. apply silent_app; [done|by repeat split]. }
  right.
  exists (if bool_decide ("mirror" ∈ settings_features W)
          then aalist else alist).
  split.
  { unfold parse_uri_maps, try_except, lift, result, mbind, M_bind, mret,
      M_ret in Hp.
    destruct (parse_uri_map W _ _ (Some _)) as [a|e]; simpl in Hp; [|done].
    destruct (parse_uri_map W _ _ None) as [aa|e]; simpl in Hp; [|done].
    injection Hp as -> ->. destruct (bool_decide _); eauto. }
  autorewrite with run. rewrite trace_bind, result_bind.
  destruct (result (scan_upstream_urls _ _ _ _)) as [rs|e].
  - rewrite trace_bind, result_bind.
    destruct (report_returns W on_progress rs) as [-> _].
    autorewrite with run. split; [|done].
    rewrite <- !app_assoc. simpl. by rewrite app_nil_r.
  - split; [|done]. rewrite <- !app_assoc. simpl. done.
Qed.

(** X19. A [None] from [scan_upstream] means that nothing was scanned: no
    handler was called, nothing was handed to [output.result], and the
    callback, if any, was told at most the first 10. *)
Theorem scan_upstream_none_scans_nothing W query on_progress :
  result (scan_upstream W query on_progress) = Ok None →
  handler_calls (trace (scan_upstream W query on_progress)) = []
  ∧ results_output (trace (scan_upstream W query on_progress)) = []
  ∧ (increments (trace (scan_upstream W query on_progress)) = []
     ∨ increments (trace (scan_upstream W query on_progress)) = [10%Z]).
Proof.
  intros Hr.
  destruct (scan_upstream_cases W query on_progress)
    as [[(Hi & Hc & Ho & _) _]
       |(pkg & t1 & t2 & _ & (Hi1 & Hc1 & Ho1 & _) & (Hi2 & Hc2 & Ho2 & _)
         & [[Ht _]|(urls & _ & _ & Hres)])].
  - rewrite Hi, Hc, Ho. by repeat split; [..|left].
  - rewrite Ht.
    rewrite !handler_calls_app, !results_output_app, !increments_app,
      Hi1, Hi2, Hc1, Hc2, Ho1, Ho2.
    destruct on_progress; simpl; repeat split; auto.
  - rewrite Hr in Hres. by destruct (result (scan_upstream_urls _ _ _ _)).
Qed.

Lemma scan_upstream_none_scans_nothing_witness :
  handler_calls
    (trace (scan_upstream
              (Sample.world_blacklisted [Sample.foo] Sample.one_url)
              "foo" true)) = []
  ∧ results_output
      (trace (scan_upstream
                (Sample.world_blacklisted [Sample.foo] Sample.one_url)
                "foo" true)) = []
  ∧ (increments
       (trace (scan_upstream
                 (Sample.world_blacklisted [Sample.foo] Sample.one_url)
                 "foo" true)) = []
     ∨ increments
         (trace (scan_upstream
                   (Sample.world_blacklisted [Sample.foo] Sample.one_url)
                   "foo" true)) = [10%Z]).
Proof.
  apply (scan_upstream_none_scans_nothing
           (Sample.world_blacklisted [Sample.foo] Sample.one_url) "foo" true).
  vm_compute. reflexivity.
Defined.

(** X20. With [quiet] or [format] set, [scan_upstream] never calls
    [pp.uprint] and never prints to [sys.stderr], whatever the query, the
    handlers and the outcome. *)
Theorem scan_upstream_quiet_prints_nothing W query on_progress :
  quiet (CONFIG W) = true ∨ format (CONFIG W) = true →
  prints (trace (scan_upstream W query on_progress)) = [].
Proof.
  intros Hq.
  destruct (scan_upstream_cases W query on_progress)
    as [[(_ & _ & _ & Hp) _]
       |(pkg & t1 & t2 & _ & (_ & _ & _ & Hp1) & (_ & _ & _ & Hp2)
         & [[-> _]|(urls & _ & -> & _)])].
  - by apply Hp.
  - rewrite !prints_app, (Hp1 Hq), (Hp2 Hq). by destruct on_progress.
  - destruct (scan_upstream_urls_quiet W (pkg_cpv pkg) urls on_progress)
      as (_ & Hpd & _).
    rewrite !prints_app, (Hp1 Hq), (Hp2 Hq), (Hpd Hq).
    assert (prints (if on_progress then [Progress 10] else []) = []) as ->
      by (by destruct on_progress).
    destruct (result (scan_upstream_urls _ _ _ _)) as [rs|e]; [|done].
    destruct (report_trace W on_progress rs) as (_ & _ & _ & Hpr).
    by rewrite (Hpr Hq).
Qed.

Lemma scan_upstream_quiet_prints_nothing_witness :
  prints
    (trace (scan_upstream
              (Sample.world Sample.scan_finds_a Sample.cfg_default
                 [Sample.foo] Sample.two_files) "foo" true)) = [].
Proof.
  apply (scan_upstream_quiet_prints_nothing
           (Sample.world Sample.scan_finds_a Sample.cfg_default
              [Sample.foo] Sample.two_files) "foo" true).
  left. reflexivity.
Defined.

(** X21. Without a callback [scan_upstream] reports no progress at all. *)
Theorem scan_upstream_without_callback W query :
  increments (trace (scan_upstream W query false)) = [].
Proof.
  destruct (scan_upstream_cases W query false)
    as [[(Hi & _) _]
       |(pkg & t1 & t2 & _ & (Hi1 & _) & (Hi2 & _)
         & [[-> _]|(urls & _ & -> & _)])].
  - done.
  - by rewrite !increments_app, Hi1, Hi2.
  - destruct (scan_upstream_urls_quiet W (pkg_cpv pkg) urls false)
      as (_ & _ & Hid).
    rewrite !increments_app, Hi1, Hi2, (Hid eq_refl).
    destruct (result (scan_upstream_urls _ _ _ _)) as [rs|e]; [|done].
    destruct (report_trace W false rs) as (-> & _). done.
Qed.

(** X22. What [scan_upstream] returns is what it has handed to
    [output.result]: every element of the result once, in the order of the
    result, and nothing else. *)
Theorem scan_upstream_outputs_its_result W query on_progress rs :
  result (scan_upstream W query on_progress) = Ok (Some rs) →
  results_output (trace (scan_upstream W query on_progress)) = rs.
Proof.
  intros Hr.
  destruct (scan_upstream_cases W query on_progress)
    as [[_ Hnone]
       |(pkg & t1 & t2 & _ & (_ & _ & Ho1 & _) & (_ & _ & Ho2 & _)
         & [[_ Hnone]|(urls & _ & -> & Hres)])]; try congruence.
  destruct (scan_upstream_urls_quiet W (pkg_cpv pkg) urls on_progress)
    as (Hod & _).
  rewrite !results_output_app, Ho1, Ho2, Hod.
  assert (results_output (if on_progress then [Progress 10] else []) = [])
    as -> by (by destruct on_progress).
  rewrite Hr in Hres.
  destruct (result (scan_upstream_urls _ _ _ _)) as [rs'|e]; [|done].
  injection Hres as ->.
  destruct (report_trace W on_progress rs') as (_ & _ & -> & _). done.
Qed.

Lemma scan_upstream_outputs_its_result_witness :
  results_output
    (trace (scan_upstream
              (Sample.world Sample.scan_finds_a Sample.cfg_default
                 [Sample.foo] Sample.two_files) "foo" true))
  = [result_of "app-misc/foo" Sample.found_12].
Proof.
  apply (scan_upstream_outputs_its_result
           (Sample.world Sample.scan_finds_a Sample.cfg_default
              [Sample.foo] Sample.two_files) "foo" true
           [result_of "app-misc/foo" Sample.found_12]).
  vm_compute. reflexivity.
Defined.

(** The increments of [scan_upstream] are not negative, and their sum is at
    most 90 however the call ends. *)
Lemma scan_upstream_spent W query on_progress :
  Forall (λ i, 0 ≤ i)%Z (increments (trace (scan_upstream W query on_progress)))
  ∧ (total_progress (trace (scan_upstream W query on_progress)) ≤ 90)%Z.
Proof.
  assert (Forall (λ i, 0 ≤ i)%Z
            (increments (if on_progress then [Progress 10] else []))
          ∧ (total_progress (if on_progress then [Progress 10] else [])
             ≤ 10)%Z) as [Hpos10 Hfit10].
  { destruct on_progress; split; try done; by repeat constructor. }
  destruct (scan_upstream_cases W query on_progress)
    as [[(Hi & _) _]
       |(pkg & t1 & t2 & _ & (Hi1 & _) & (Hi2 & _)
         & [[-> _]|(urls & _ & -> & _)])].
  - rewrite (total_progress_no_increments _ Hi), Hi. split; [constructor|lia].
  - rewrite !total_progress_app, !increments_app,
      (total_progress_no_increments _ Hi1),
      (total_progress_no_increments _ Hi2), Hi1, Hi2, app_nil_r.
    split; [done|lia].
  - destruct (scan_upstream_urls_spent W (pkg_cpv pkg) urls on_progress)
      as [Hposd Hfitd].
    rewrite !total_progress_app, !increments_app,
      (total_progress_no_increments _ Hi1),
      (total_progress_no_increments _ Hi2), Hi1, Hi2.
    simpl.
    assert (Forall (λ i, 0 ≤ i)%Z
              (increments
                 match result (scan_upstream_urls W (pkg_cpv pkg) urls
                                 on_progress) with
                 | Ok rs => trace (report W on_progress rs)
                 | Raised _ => []
                 end)
            ∧ (total_progress
                 match result (scan_upstream_urls W (pkg_cpv pkg) urls
                                 on_progress) with
                 | Ok rs => trace (report W on_progress rs)
                 | Raised _ => []
                 end ≤ 10)%Z) as [Hpost Hfitt].
    { destruct (result (scan_upstream_urls _ _ _ _)) as [rs|e];
        [|by split].
      destruct (report_trace W on_progress rs) as (Hir & _).
      unfold total_progress. rewrite Hir.
      destruct on_progress; split; simpl; try lia; by repeat constructor. }
    split; [|lia]. rewrite !Forall_app. done.
Qed.

(** X23. At every moment of a call of [scan_upstream], returning or
    raising, the progress reported so far lies between 0 and 90. *)
Theorem scan_upstream_within_budget W query on_progress t' :
  t' `prefix_of` trace (scan_upstream W query on_progress) →
  (0 ≤ total_progress t' ≤ 90)%Z.
Proof.
  intros Hpre.
  destruct (scan_upstream_spent W query on_progress) as [Hpos Hfit].
  pose proof (prefix_total_progress _ _ Hpos Hpre). lia.
Qed.

Lemma scan_upstream_within_budget_witness :
  (0 ≤ total_progress
         [Metadata "datetime" "2012-07-01T12:00:00" false;
          Metadata "cp" "app-misc/foo" false;
          Metadata "cpv" "app-misc/foo-1.0" false;
          Progress 10; Metadata "scan_time" "0.5" false; Progress 70]
   ≤ 90)%Z.
Proof.
  apply (scan_upstream_within_budget
           (Sample.world Sample.scan_finds_a Sample.cfg_default
              [Sample.foo] Sample.one_url) "foo" true).
  exists [EInfo "SRC_URI is 'http://a/foo-1.0.tar.gz'";
          CallScan "app-misc/foo-1.0" "http://a/foo-1.0.tar.gz";
          Progress 10;
          OutResult "app-misc/foo" "1.2" "http://a/foo-1.2.tar.gz"
            "generic" 80].
  vm_compute. reflexivity.
Defined.

(** X25. When either expansion of the source declaration raises, the one
    for the active use flags or the one for all files, [scan_upstream]
    prints the message of the exception and "Invalid SRC_URI" as warnings
    and returns [None] without scanning; this is so even for the expansion
    that would not have been scanned. *)
Theorem scan_upstream_invalid_src_uri W query on_progress pkg e :
  resolved W query = Some pkg →
  Package_nonzero W pkg = true →
  pkg_cp pkg ∉ BLACKLIST_PACKAGES W →
  (parse_uri_map W (pkg_cpv pkg)
     (settings_EAPI W, pkg_environment pkg "SRC_URI" false)
     (Some (settings_PORTAGE_USE W)) = Raised e
   ∨ (∃ alist,
        parse_uri_map W (pkg_cpv pkg)
          (settings_EAPI W, pkg_environment pkg "SRC_URI" false)
          (Some (settings_PORTAGE_USE W)) = Ok alist)
     ∧ parse_uri_map W (pkg_cpv pkg)
         (settings_EAPI W, pkg_environment pkg "SRC_URI" false)
         None = Raised e) →
  result (scan_upstream W query on_progress) = Ok None
  ∧ trace (scan_upstream W query on_progress)
    = trace (find_matches W query)
      ++ [Metadata "datetime" (start_time_isoformat W) false;
          Metadata "cp" (pkg_cp pkg) false;
          Metadata "cpv" (pkg_cpv pkg) false]
      ++ (if on_progress then [Progress 10] else [])
      ++ trace (describe W pkg)
      ++ [EWarn (exn_message e +:+ newline);
          EWarn ("Invalid SRC_URI for '" +:+ pkg_cpv pkg +:+ "'")].
Proof.
  intros Hres Hnz Hbl Hraise.
  destruct (scan_upstream_resolved W query on_progress pkg Hres Hnz)
    as [-> ->].
  assert (parse_uri_maps W pkg
          = ([EWarn (exn_message e +:+ newline);
              EWarn ("Invalid SRC_URI for '" +:+ pkg_cpv pkg +:+ "'")],
             Ok None)) as Hparse.
  { unfold parse_uri_maps, try_except, lift, emit, mbind, M_bind, mret, M_ret.
    destruct Hraise as [->|[[alist ->] ->]]; done. }
  unfold scan_package. autorewrite with run.
  rewrite trace_bind, result_bind.
  assert (result (when on_progress (emit (Progress 10))) = Ok tt
          ∧ trace (when on_progress (emit (Progress 10)))
            = (if on_progress then [Progress 10] else [])) as [-> ->]
    by (by destruct on_progress).
  rewrite bool_decide_eq_false_2 by done.
  rewrite trace_bind, result_bind.
  destruct (describe_returns W pkg) as (-> & _).
  rewrite trace_bind, result_bind, Hparse. simpl.
  split; [done|]. by rewrite ?app_nil_r.
Qed.

Lemma scan_upstream_invalid_src_uri_witness :
  result (scan_upstream Sample2.world_malformed "foo" true) = Ok None
  ∧ trace (scan_upstream Sample2.world_malformed "foo" true)
    = trace (find_matches Sample2.world_malformed "foo")
      ++ [Metadata "datetime"
            (start_time_isoformat Sample2.world_malformed) false;
          Metadata "cp" (pkg_cp Sample.foo) false;
          Metadata "cpv" (pkg_cpv Sample.foo) false]
      ++ [Progress 10]
      ++ trace (describe Sample2.world_malformed Sample.foo)
      ++ [EWarn (exn_message Sample2.bad_uri +:+ newline);
          EWarn ("Invalid SRC_URI for '" +:+ pkg_cpv Sample.foo +:+ "'")].
Proof.
  apply (scan_upstream_invalid_src_uri Sample2.world_malformed "foo" true
           Sample.foo Sample2.bad_uri).
  - reflexivity.
  - reflexivity.
  - intros Hin. apply elem_of_nil in Hin. exact Hin.
  - right. split; [eexists; reflexivity|reflexivity].
Defined.

(** ** [reload_gentoolkit] *)

(** X26. [reload_gentoolkit] always leaves [gentoolkit.dbapi.PORTDB] bound to
    the new database; in [gentoolkit.package] and [gentoolkit.query] it
    rebinds the attribute where there is one and never creates or removes
    it; and of two reloads in a row only the last one shows. *)
Theorem reload_gentoolkit_rebinds {D : Type} (PORTDB : D) (g : Gentoolkit D) :
  dbapi_PORTDB (reload_gentoolkit PORTDB g) = Some PORTDB
  ∧ package_PORTDB (reload_gentoolkit PORTDB g)
    = (λ _, PORTDB) <$> package_PORTDB g
  ∧ query_PORTDB (reload_gentoolkit PORTDB g)
    = (λ _, PORTDB) <$> query_PORTDB g
  ∧ ∀ PORTDB' : D,
      reload_gentoolkit PORTDB' (reload_gentoolkit PORTDB g)
      = reload_gentoolkit PORTDB' g.
Proof.
  destruct g as [d [p|] [q|]]; repeat split; intros; reflexivity.
Qed.

(** ** Fault containment in the dispatch loop *)

Section Continuation.

Variables (W : World) (cpv : string) (on_progress : bool) (inc : Z).
Hypothesis Hbf : brute_force_returns W cpv.














End Continuation.





